(** * Java test-generation extension: scanner, import merger, path resolver,
      test runner

    A shallow embedding of the text-processing core of the extension
    ([services/javaParser.ts], [services/pathResolver.ts] and the test-running
    part of [ui/sidebarProvider.ts]) together with the properties its
    specification states about it.

    JavaScript strings are sequences of UTF-16 code units; they are modelled
    as [list N].  Regular expressions are kept as syntax trees and run by a
    backtracking matcher that follows the ECMAScript matching order, so every
    pattern of the source appears below as a term that can be compared with
    the literal it transcribes. *)

From Stdlib Require Import String Ascii DecimalString.
From Stdlib Require Import List NArith ZArith Bool Arith Lia.
Import ListNotations.

Set Implicit Arguments.

(* ================================================================== *)
(** ** JavaScript strings *)
(* ================================================================== *)

Module JS.

Definition jsstring := list N.

(** An ASCII literal as a sequence of code units. *)
Definition lit (s : String.string) : jsstring :=
  map N_of_ascii (String.list_ascii_of_string s).

Arguments lit s%_string.

Definition jseqb (a b : jsstring) : bool :=
  if list_eq_dec N.eq_dec a b then true else false.

(** [WhiteSpace] and [LineTerminator] code points of ECMAScript: the set
    matched by [\s] and stripped by [String.prototype.trim]. *)
Definition is_line_terminator (c : N) : bool :=
  ((c =? 10) || (c =? 13) || (c =? 8232) || (c =? 8233))%N.

Definition is_space (c : N) : bool :=
  ((c =? 9) || (c =? 11) || (c =? 12) || (c =? 32) || (c =? 160)
   || (c =? 5760) || ((8192 <=? c) && (c <=? 8202)) || (c =? 8239)
   || (c =? 8287) || (c =? 12288) || (c =? 65279))%N
  || is_line_terminator c.

Definition is_digit (c : N) : bool := ((48 <=? c) && (c <=? 57))%N.
Definition is_upper (c : N) : bool := ((65 <=? c) && (c <=? 90))%N.
Definition is_lower (c : N) : bool := ((97 <=? c) && (c <=? 122))%N.

(** [\w] without the [i] and [u] flags. *)
Definition is_word (c : N) : bool :=
  is_upper c || is_lower c || is_digit c || (c =? 95)%N.

Fixpoint dropWhile (p : N -> bool) (s : jsstring) : jsstring :=
  match s with
  | [] => []
  | c :: r => if p c then dropWhile p r else s
  end.

(** [String.prototype.trim]. *)
Definition trim (s : jsstring) : jsstring :=
  rev (dropWhile is_space (rev (dropWhile is_space s))).

(** [String.prototype.startsWith]. *)
Fixpoint startsWith (s p : jsstring) : bool :=
  match p, s with
  | [], _ => true
  | _ :: _, [] => false
  | a :: p', b :: s' => (a =? b)%N && startsWith s' p'
  end.

(** [String.prototype.endsWith]. *)
Definition endsWith (s p : jsstring) : bool :=
  startsWith (rev s) (rev p).

(** [String.prototype.includes]. *)
Fixpoint includes (s p : jsstring) : bool :=
  startsWith s p ||
  match s with
  | [] => false
  | _ :: r => includes r p
  end.

(** [s.split(sep)] for a one-unit separator; never empty. *)
Fixpoint split (sep : N) (s : jsstring) : list jsstring :=
  match s with
  | [] => [[]]
  | c :: r =>
      if (c =? sep)%N then [] :: split sep r
      else match split sep r with
           | h :: t => (c :: h) :: t
           | [] => [[c]]
           end
  end.

(** [Array.prototype.join]. *)
Fixpoint join (sep : jsstring) (l : list jsstring) : jsstring :=
  match l with
  | [] => []
  | [x] => x
  | x :: r => x ++ sep ++ join sep r
  end.

(** [s.replace(p, q)] for a string pattern: only the first occurrence. *)
Fixpoint replaceFirst (s p q : jsstring) : jsstring :=
  if startsWith s p then q ++ skipn (length p) s
  else match s with
       | [] => []
       | c :: r => c :: replaceFirst r p q
       end.

(** ASCII range of [String.prototype.toLowerCase]. *)
Definition asciiLower (s : jsstring) : jsstring :=
  map (fun c => if is_upper c then (c + 32)%N else c) s.

Definition NL : N := 10.

End JS.

Import JS.

(* ================================================================== *)
(** ** Regular expressions *)
(* ================================================================== *)

Module Regex.

(** The fragment of ECMAScript patterns the sources use. *)
Inductive regex : Type :=
| Eps : regex                          (* empty pattern *)
| Chr : (N -> bool) -> regex           (* one code unit of a class *)
| Seq : regex -> regex -> regex
| Alt : regex -> regex -> regex        (* r1|r2, left first *)
| Star : regex -> regex                (* greedy r* *)
| Group : nat -> regex -> regex        (* capturing group number n *)
| Bol : bool -> regex                  (* ^, the flag is the m flag *)
| Eol : regex.                         (* $ without the m flag *)

Definition Plus (r : regex) : regex := Seq r (Star r).
(** Greedy [r?]; every optional sub-pattern of the sources consumes input,
    so the empty-iteration check of the standard never fires. *)
Definition Opt (r : regex) : regex := Alt r Eps.
Definition seqs (l : list regex) : regex := fold_right Seq Eps l.
Definition alts (l : list regex) : regex :=
  match l with
  | [] => Chr (fun _ => false)
  | r :: rs => fold_left Alt rs r
  end.
Definition chr (a : ascii) : regex := Chr (N.eqb (N_of_ascii a)).
Definition notchr (a : ascii) : regex :=
  Chr (fun c => negb (N.eqb (N_of_ascii a) c)).
Definition str (s : String.string) : regex :=
  seqs (map (fun c => Chr (N.eqb c)) (lit s)).

Arguments str s%_string.
Arguments chr a%_char.
Arguments notchr a%_char.

Definition ws : regex := Chr is_space.
Definition word : regex := Chr is_word.

(** Matcher state: the consumed prefix (reversed), the remaining input and
    the captures recorded so far. *)
Record mstate : Type := MState {
  before : jsstring;
  after : jsstring;
  caps : list (nat * jsstring)
}.

Definition cont := mstate -> option mstate.

Fixpoint groups (r : regex) : list nat :=
  match r with
  | Seq a b | Alt a b => groups a ++ groups b
  | Star a => groups a
  | Group n a => n :: groups a
  | _ => []
  end.

Definition clearCaps (gs : list nat) (st : mstate) : mstate :=
  MState (before st) (after st)
         (filter (fun p => negb (existsb (Nat.eqb (fst p)) gs)) (caps st)).

Definition setCap (n : nat) (st0 st1 : mstate) : mstate :=
  MState (before st1) (after st1)
         ((n, rev (firstn (length (before st1) - length (before st0)) (before st1)))
            :: caps st1).

Fixpoint getCap (n : nat) (cs : list (nat * jsstring)) : option jsstring :=
  match cs with
  | [] => None
  | (m, s) :: r => if Nat.eqb m n then Some s else getCap n r
  end.

Definition atBol (multiline : bool) (st : mstate) : bool :=
  match before st with
  | [] => true
  | c :: _ => multiline && is_line_terminator c
  end.

Definition orElse (a : option mstate) (b : unit -> option mstate) :=
  match a with
  | Some x => Some x
  | None => b tt
  end.

(** Greedy repetition: try one more iteration (captures of the body reset,
    an iteration that consumes nothing is rejected), otherwise continue. *)
Fixpoint starLoop (gs : list nat) (body : cont -> cont) (fuel : nat)
  (k : cont) (st : mstate) : option mstate :=
  match fuel with
  | O => k st
  | S f =>
      orElse
        (body (fun st' =>
                 if length (after st') <? length (after st)
                 then starLoop gs body f k st' else None)
              (clearCaps gs st))
        (fun _ => k st)
  end.

(** Backtracking matcher in continuation-passing style. *)
Fixpoint rmatch (r : regex) (k : cont) (st : mstate) : option mstate :=
  match r with
  | Eps => k st
  | Chr p =>
      match after st with
      | c :: rest =>
          if p c then k (MState (c :: before st) rest (caps st)) else None
      | [] => None
      end
  | Seq a b => rmatch a (rmatch b k) st
  | Alt a b => orElse (rmatch a k st) (fun _ => rmatch b k st)
  | Star a => starLoop (groups a) (rmatch a) (length (after st)) k st
  | Group n a => rmatch a (fun st' => k (setCap n st st')) st
  | Bol m => if atBol m st then k st else None
  | Eol => match after st with [] => k st | _ => None end
  end.

(** Result of a successful match: start index, end index, captures. *)
Record matched : Type := Matched {
  mstart : nat;
  mend : nat;
  mcaps : list (nat * jsstring)
}.

(** Leftmost match starting at or after the current position. *)
Fixpoint search (r : regex) (bef aft : jsstring) : option matched :=
  match rmatch r Some (MState bef aft []) with
  | Some st => Some (Matched (length bef) (length (before st)) (caps st))
  | None =>
      match aft with
      | [] => None
      | c :: rest => search r (c :: bef) rest
      end
  end.

(** [re.exec(s)] / [s.match(re)] without the g flag. *)
Definition exec (r : regex) (s : jsstring) : option matched := search r [] s.

(** [re.test(s)]. *)
Definition test (r : regex) (s : jsstring) : bool :=
  match exec r s with Some _ => true | None => false end.

(** [m[n]], with [undefined] as [None]. *)
Definition group (n : nat) (m : matched) : option jsstring := getCap n (mcaps m).

(** The loop [while ((m = re.exec(s)) !== null) acc.push(m[n])] for a
    pattern with the g flag whose matches are never empty; [fuel] bounds the
    number of iterations. *)
Fixpoint execAll (r : regex) (n : nat) (fuel : nat) (bef aft : jsstring)
  : list jsstring :=
  match fuel with
  | O => []
  | S f =>
      match search r bef aft with
      | None => []
      | Some m =>
          let k := mend m - length bef in
          match getCap n (mcaps m) with
          | Some s => s
          | None => []
          end :: execAll r n f (rev (firstn k aft) ++ bef) (skipn k aft)
      end
  end.

(** [(s.match(re) || []).length] for a one-unit class with the g flag. *)
Definition countMatches (p : N -> bool) (s : jsstring) : Z :=
  Z.of_nat (length (filter p s)).

End Regex.

Import Regex.

(* ================================================================== *)
(** ** What the matcher computes *)
(* ================================================================== *)

Module RegexFacts.

(** Declarative reading of a pattern: [Matches r st st'] when [r] can take
    the matcher from [st] to [st'], whatever the order of the attempts. *)
Inductive Matches : regex -> mstate -> mstate -> Prop :=
| MEps st : Matches Eps st st
| MChr p c bef rest cs :
    p c = true ->
    Matches (Chr p) (MState bef (c :: rest) cs) (MState (c :: bef) rest cs)
| MSeq a b st1 st2 st3 :
    Matches a st1 st2 -> Matches b st2 st3 -> Matches (Seq a b) st1 st3
| MAltL a b st st' : Matches a st st' -> Matches (Alt a b) st st'
| MAltR a b st st' : Matches b st st' -> Matches (Alt a b) st st'
| MStarStop a st : Matches (Star a) st st
| MStarMore a st st1 st2 :
    Matches a (clearCaps (groups a) st) st1 ->
    length (after st1) < length (after st) ->
    Matches (Star a) st1 st2 ->
    Matches (Star a) st st2
| MGroup n a st st' :
    Matches a st st' -> Matches (Group n a) st (setCap n st st')
| MBol m st : atBol m st = true -> Matches (Bol m) st st
| MEol st : after st = [] -> Matches Eol st st.

(** The whole string matches an anchored pattern. *)
Definition MatchesWhole (r : regex) (s : jsstring) : Prop :=
  exists st', Matches r (MState [] s []) st'.

Lemma orElse_some a b x :
  orElse a b = Some x -> a = Some x \/ (a = None /\ b tt = Some x).
Proof. destruct a; simpl; intros H; [left; exact H|right; now split]. Qed.

Lemma starLoop_sound gs a :
  (forall k st res, rmatch a k st = Some res ->
                    exists st', Matches a st st' /\ k st' = Some res) ->
  groups a = gs ->
  forall fuel k st res,
    starLoop gs (rmatch a) fuel k st = Some res ->
    exists st', Matches (Star a) st st' /\ k st' = Some res.
Proof.
  intros IHa <-. induction fuel as [|f IH]; intros k st res H; simpl in H.
  - exists st. split; [constructor|exact H].
  - apply orElse_some in H. destruct H as [H|[_ H]].
    + apply IHa in H. destruct H as (st1 & M1 & H).
      destruct (length (after st1) <? length (after st)) eqn:L; [|discriminate].
      apply Nat.ltb_lt in L.
      apply IH in H. destruct H as (st2 & M2 & H).
      exists st2. split; [|exact H].
      now apply MStarMore with (st1 := st1).
    + exists st. split; [constructor|exact H].
Qed.

(** Whatever the matcher returns is a match. *)
Lemma rmatch_sound r : forall k st res,
  rmatch r k st = Some res ->
  exists st', Matches r st st' /\ k st' = Some res.
Proof.
  induction r as [|p|a IHa b IHb|a IHa b IHb|a IHa|n a IHa|m|];
    intros k st res H; simpl in H.
  - exists st. split; [constructor|exact H].
  - destruct st as [bef aft cs]. simpl in H.
    destruct aft as [|c rest]; [discriminate|].
    destruct (p c) eqn:Hp; [|discriminate].
    eexists. split; [now constructor|exact H].
  - apply IHa in H. destruct H as (st1 & M1 & H).
    apply IHb in H. destruct H as (st2 & M2 & H).
    exists st2. split; [now apply MSeq with (st2 := st1)|exact H].
  - apply orElse_some in H. destruct H as [H|[_ H]].
    + apply IHa in H. destruct H as (st1 & M1 & H).
      exists st1. split; [now apply MAltL|exact H].
    + apply IHb in H. destruct H as (st1 & M1 & H).
      exists st1. split; [now apply MAltR|exact H].
  - eapply starLoop_sound; eauto.
  - apply IHa in H. destruct H as (st1 & M1 & H).
    eexists. split; [apply MGroup; exact M1|exact H].
  - destruct (atBol m st) eqn:B; [|discriminate].
    exists st. split; [now constructor|exact H].
  - destruct (after st) eqn:A; [|discriminate].
    exists st. split; [now constructor|exact H].
Qed.

Lemma starLoop_complete a :
  (forall k st st', Matches a st st' -> k st' <> None -> rmatch a k st <> None) ->
  forall r st st', Matches r st st' -> r = Star a ->
  forall fuel k, length (after st) <= fuel -> k st' <> None ->
                 starLoop (groups a) (rmatch a) fuel k st <> None.
Proof.
  intros IHa r st st' M.
  induction M; intros E fuel k Hf Hk; try discriminate.
  - destruct fuel; simpl; [exact Hk|].
    destruct (rmatch a _ _); simpl; [discriminate|exact Hk].
  - injection E as ->.
    destruct fuel as [|f]; [exfalso; lia|]. simpl.
    match goal with
    | |- orElse ?x _ <> None => destruct x eqn:R; simpl; [discriminate|]
    end.
    exfalso. revert R. apply (IHa _ _ _ M1).
    rewrite (proj2 (Nat.ltb_lt _ _) H).
    apply IHM2; [reflexivity|lia|exact Hk].
Qed.

(** Whenever a match exists that the continuation accepts, the matcher
    returns some match. *)
Lemma rmatch_complete r : forall k st st',
  Matches r st st' -> k st' <> None -> rmatch r k st <> None.
Proof.
  induction r as [|p|a IHa b IHb|a IHa b IHb|a IHa|n a IHa|m|];
    intros k st st' M Hk; simpl.
  - inversion M; subst. exact Hk.
  - inversion M; subst. simpl. rewrite H0. exact Hk.
  - inversion M; subst. eapply IHa; eauto.
  - inversion M; subst.
    + destruct (rmatch a k st) eqn:R; simpl; [discriminate|].
      exfalso. revert R. eapply IHa; eauto.
    + destruct (rmatch a k st) eqn:R; simpl; [discriminate|].
      eapply IHb; eauto.
  - eapply starLoop_complete; eauto.
  - inversion M; subst. eapply IHa; eauto.
  - inversion M; subst. rewrite H0. exact Hk.
  - inversion M; subst. rewrite H. exact Hk.
Qed.

(** For a pattern that starts with [^] (no m flag), [test] decides whether
    the string has a match from its first unit. *)
Lemma search_anchored r : forall aft bef,
  bef <> [] -> search (Seq (Bol false) r) bef aft = None.
Proof.
  induction aft as [|c aft IH]; intros bef Hb; simpl.
  - destruct bef; [congruence|reflexivity].
  - destruct bef as [|b bef]; [congruence|]. simpl.
    apply IH. discriminate.
Qed.

Lemma test_anchored r s :
  test (Seq (Bol false) r) s = true <-> MatchesWhole (Seq (Bol false) r) s.
Proof.
  unfold test, exec, MatchesWhole.
  destruct s as [|c s].
  - cbn [search].
    destruct (rmatch (Seq (Bol false) r) Some (MState [] [] [])) eqn:R.
    + split; [intros _|reflexivity].
      apply rmatch_sound in R. destruct R as (st' & M & _). now exists st'.
    + split; [discriminate|].
      intros (st' & M). exfalso. revert R.
      eapply rmatch_complete; eauto. discriminate.
  - cbn [search].
    destruct (rmatch (Seq (Bol false) r) Some (MState [] (c :: s) [])) eqn:R.
    + split; [intros _|reflexivity].
      apply rmatch_sound in R. destruct R as (st' & M & _). now exists st'.
    + rewrite search_anchored by discriminate.
      split; [discriminate|].
      intros (st' & M). exfalso. revert R.
      eapply rmatch_complete; eauto. discriminate.
Qed.

(** *** The language of a pattern without anchors *)

Inductive Lang : regex -> jsstring -> Prop :=
| LEps : Lang Eps []
| LChr p c : p c = true -> Lang (Chr p) [c]
| LSeq a b u v : Lang a u -> Lang b v -> Lang (Seq a b) (u ++ v)
| LAltL a b u : Lang a u -> Lang (Alt a b) u
| LAltR a b u : Lang b u -> Lang (Alt a b) u
| LStarStop a : Lang (Star a) []
| LStarMore a u v :
    Lang a u -> u <> [] -> Lang (Star a) v -> Lang (Star a) (u ++ v)
| LGroup n a u : Lang a u -> Lang (Group n a) u.

Fixpoint anchorFree (r : regex) : bool :=
  match r with
  | Eps | Chr _ => true
  | Seq a b | Alt a b => anchorFree a && anchorFree b
  | Star a | Group _ a => anchorFree a
  | Bol _ | Eol => false
  end.

Lemma Matches_Lang r st st' :
  Matches r st st' -> anchorFree r = true ->
  exists w, Lang r w /\ after st = w ++ after st' /\
            before st' = rev w ++ before st.
Proof.
  induction 1 as [st|p c bef rest cs Hp|a b st1 st2 st3 _ IH1 _ IH2
                  |a b st st' _ IH|a b st st' _ IH|a st
                  |a st st1 st2 _ IH1 Hlt _ IH2|n a st st' _ IH|m st|st];
    simpl; intros Haf; try discriminate.
  - exists []. repeat split. constructor.
  - exists [c]. repeat split. now constructor.
  - apply andb_true_iff in Haf. destruct Haf as [Ha Hb].
    destruct (IH1 Ha) as (u & Lu & Au & Bu).
    destruct (IH2 Hb) as (v & Lv & Av & Bv).
    exists (u ++ v). repeat split.
    + now constructor.
    + now rewrite Au, Av, app_assoc.
    + now rewrite Bv, Bu, rev_app_distr, app_assoc.
  - apply andb_true_iff in Haf. destruct Haf as [Ha Hb].
    destruct (IH Ha) as (u & Lu & Au & Bu).
    exists u. repeat split; auto. now apply LAltL.
  - apply andb_true_iff in Haf. destruct Haf as [Ha Hb].
    destruct (IH Hb) as (u & Lu & Au & Bu).
    exists u. repeat split; auto. now apply LAltR.
  - exists []. repeat split. constructor.
  - destruct (IH1 Haf) as (u & Lu & Au & Bu).
    destruct (IH2 Haf) as (v & Lv & Av & Bv).
    simpl in Au, Bu.
    exists (u ++ v). repeat split.
    + apply LStarMore; auto.
      intros ->. simpl in Au. rewrite Au in Hlt. lia.
    + now rewrite Au, Av, app_assoc.
    + now rewrite Bv, Bu, rev_app_distr, app_assoc.
  - destruct (IH Haf) as (u & Lu & Au & Bu).
    exists u. repeat split; auto. now constructor.
Qed.

Lemma Lang_Matches r w :
  Lang r w ->
  forall bef aft cs,
    exists cs', Matches r (MState bef (w ++ aft) cs) (MState (rev w ++ bef) aft cs').
Proof.
  induction 1 as [|p c Hp|a b u v _ IH1 _ IH2|a b u _ IH|a b u _ IH|a
                  |a u v _ IH1 Hne _ IH2|n a u _ IH]; intros bef aft cs.
  - exists cs. constructor.
  - exists cs. now constructor.
  - destruct (IH1 bef (v ++ aft) cs) as (cs1 & M1).
    destruct (IH2 (rev u ++ bef) aft cs1) as (cs2 & M2).
    exists cs2. rewrite rev_app_distr, <- !app_assoc.
    now apply MSeq with (st2 := MState (rev u ++ bef) (v ++ aft) cs1).
  - destruct (IH bef aft cs) as (cs1 & M1). exists cs1. now apply MAltL.
  - destruct (IH bef aft cs) as (cs1 & M1). exists cs1. now apply MAltR.
  - exists cs. constructor.
  - set (st := MState bef ((u ++ v) ++ aft) cs).
    destruct (IH1 bef (v ++ aft) (caps (clearCaps (groups a) st))) as (cs1 & M1).
    destruct (IH2 (rev u ++ bef) aft cs1) as (cs2 & M2).
    exists cs2. rewrite rev_app_distr, <- !app_assoc.
    apply MStarMore with (st1 := MState (rev u ++ bef) (v ++ aft) cs1).
    + unfold clearCaps, st in *. simpl in *. now rewrite <- app_assoc.
    + simpl. rewrite !length_app. destruct u; [congruence|simpl; lia].
    + exact M2.
  - destruct (IH bef aft cs) as (cs1 & M1).
    eexists. exact (MGroup n M1).
Qed.

Lemma Matches_seq_inv a b st st' :
  Matches (Seq a b) st st' -> exists mid, Matches a st mid /\ Matches b mid st'.
Proof. intros M. inversion M; subst. eauto. Qed.

Lemma Matches_eps_inv st st' : Matches Eps st st' -> st' = st.
Proof. intros M. now inversion M. Qed.

Lemma Matches_bol_inv m st st' :
  Matches (Bol m) st st' -> st' = st /\ atBol m st = true.
Proof. intros M. now inversion M. Qed.

Lemma Matches_eol_inv st st' :
  Matches Eol st st' -> st' = st /\ after st = [].
Proof. intros M. now inversion M. Qed.

Lemma Matches_seqs_app l1 : forall l2 st st',
  Matches (seqs (l1 ++ l2)) st st' <->
  exists mid, Matches (seqs l1) st mid /\ Matches (seqs l2) mid st'.
Proof.
  induction l1 as [|r l1 IH]; intros l2 st st'; simpl.
  - split.
    + intros M. exists st. split; [constructor|exact M].
    + intros (mid & M1 & M2). apply Matches_eps_inv in M1. now subst.
  - split.
    + intros M. apply Matches_seq_inv in M. destruct M as (m1 & Mr & M).
      apply IH in M. destruct M as (mid & M1 & M2).
      exists mid. split; [|exact M2]. now apply MSeq with (st2 := m1).
    + intros (mid & M1 & M2).
      apply Matches_seq_inv in M1. destruct M1 as (m1 & Mr & M1).
      apply MSeq with (st2 := m1); [assumption|].
      apply IH. now exists mid.
Qed.

(** A pattern of the shape [^ body $] matches the whole string exactly when
    the string is in the language of the body. *)
Lemma MatchesWhole_anchored body s :
  anchorFree (seqs body) = true ->
  MatchesWhole (seqs ([Bol false] ++ body ++ [Eol])) s <-> Lang (seqs body) s.
Proof.
  intros Haf. unfold MatchesWhole. split.
  - intros (st' & M).
    apply Matches_seqs_app in M. destruct M as (m1 & M1 & M).
    apply Matches_seqs_app in M. destruct M as (m2 & M2 & M3).
    simpl in M1, M3.
    apply Matches_seq_inv in M1. destruct M1 as (x & B & E).
    apply Matches_bol_inv in B. destruct B as [-> _].
    apply Matches_eps_inv in E. subst m1.
    apply Matches_seq_inv in M3. destruct M3 as (y & Z & E).
    apply Matches_eol_inv in Z. destruct Z as [-> Hend].
    destruct (Matches_Lang M2 Haf) as (w & Lw & Aw & _).
    simpl in Aw. rewrite Hend in Aw. now rewrite Aw, app_nil_r.
  - intros L.
    destruct (Lang_Matches L [] [] []) as (cs & M).
    rewrite app_nil_r in M.
    eexists. apply Matches_seqs_app.
    exists (MState [] s []). split.
    + simpl. apply MSeq with (st2 := MState [] s []); constructor. reflexivity.
    + apply Matches_seqs_app. eexists. split; [exact M|].
      simpl. eapply MSeq; constructor. reflexivity.
Qed.

Lemma Lang_star_chr p w :
  Lang (Star (Chr p)) w <-> forallb p w = true.
Proof.
  split.
  - intros L. remember (Star (Chr p)) as r eqn:E.
    induction L; try discriminate; [reflexivity|].
    injection E as ->. inversion L1; subst. simpl.
    rewrite H1. simpl. now apply IHL2.
  - induction w as [|c w IH]; simpl; intros H; [constructor|].
    apply andb_true_iff in H. destruct H as [Hc Hw].
    apply (LStarMore (a := Chr p) (u := [c]) (v := w));
      [now constructor|discriminate|now apply IH].
Qed.

Lemma Lang_seq_inv a b w :
  Lang (Seq a b) w -> exists u v, w = u ++ v /\ Lang a u /\ Lang b v.
Proof. intros L. inversion L; subst. now exists u, v. Qed.

Lemma Lang_chr_inv p w : Lang (Chr p) w -> exists c, w = [c] /\ p c = true.
Proof. intros L. inversion L; subst. now exists c. Qed.

Lemma Lang_alt_inv a b w : Lang (Alt a b) w -> Lang a w \/ Lang b w.
Proof. intros L. inversion L; subst; auto. Qed.

Lemma Lang_group_inv n a w : Lang (Group n a) w -> Lang a w.
Proof. intros L. now inversion L. Qed.

Lemma Lang_eps_inv w : Lang Eps w -> w = [].
Proof. intros L. now inversion L. Qed.

(** Repetition of a body that never matches the empty string. *)
Lemma Lang_star_concat a w :
  (forall u, Lang a u -> u <> []) ->
  (Lang (Star a) w <-> exists us, Forall (Lang a) us /\ w = concat us).
Proof.
  intros Hne. split.
  - intros L. remember (Star a) as r eqn:E.
    induction L; try discriminate.
    + now exists [].
    + injection E as ->. destruct (IHL2 eq_refl) as (us & F & ->).
      exists (u :: us). split; [now constructor|reflexivity].
  - intros (us & F & ->). induction F as [|u us Hu F IH]; simpl.
    + constructor.
    + apply LStarMore; auto.
Qed.

(** *** Matches found by [search] *)

(** A lower bound on the length of the strings of a pattern. *)
Fixpoint minLen (r : regex) : nat :=
  match r with
  | Chr _ => 1
  | Seq a b => minLen a + minLen b
  | Alt a b => Nat.min (minLen a) (minLen b)
  | Group _ a => minLen a
  | _ => 0
  end.

Lemma Lang_minLen r w : Lang r w -> minLen r <= length w.
Proof.
  induction 1; simpl; try rewrite length_app; lia.
Qed.

Lemma search_found r : forall aft bef m,
  search r bef aft = Some m ->
  exists pre post st',
    aft = pre ++ post /\
    rmatch r Some (MState (rev pre ++ bef) post []) = Some st' /\
    mstart m = length bef + length pre /\
    mend m = length (before st') /\ mcaps m = caps st'.
Proof.
  induction aft as [|c aft IH]; intros bef m H; simpl in H.
  - destruct (rmatch r Some (MState bef [] [])) as [st'|] eqn:R; [|discriminate].
    injection H as <-. exists [], [], st'. simpl. repeat split; auto.
  - destruct (rmatch r Some (MState bef (c :: aft) [])) as [st'|] eqn:R.
    + injection H as <-. exists [], (c :: aft), st'. simpl. repeat split; auto.
    + apply IH in H. destruct H as (pre & post & st' & -> & R' & Hs & He & Hc).
      exists (c :: pre), post, st'. simpl in *.
      rewrite <- app_assoc. simpl. repeat split; auto. lia.
Qed.

(** For a pattern [^ body] with the m flag whose body cannot match the empty
    string, every match that [search] finds ends strictly after the place
    where the search began, and inside the text. *)
Lemma search_progress body bef aft m :
  anchorFree body = true -> 0 < minLen body ->
  search (Seq (Bol true) body) bef aft = Some m ->
  length bef < mend m /\ mend m <= length bef + length aft.
Proof.
  intros Haf Hmin H.
  apply search_found in H.
  destruct H as (pre & post & st' & -> & R & _ & He & _).
  apply rmatch_sound in R. destruct R as (st1 & M & E). injection E as ->.
  apply Matches_seq_inv in M. destruct M as (mid & B & M).
  apply Matches_bol_inv in B. destruct B as [-> _].
  destruct (Matches_Lang M Haf) as (w & L & A & Bf).
  apply Lang_minLen in L. simpl in A, Bf.
  rewrite He, Bf, !length_app, !length_rev.
  rewrite A, length_app. lia.
Qed.

(** With more fuel than units left, [execAll] never runs out of fuel. *)
Lemma execAll_enough r n :
  (forall bef aft m, search r bef aft = Some m ->
                     length bef < mend m /\ mend m <= length bef + length aft) ->
  forall fuel fuel' bef aft,
    length aft < fuel -> length aft < fuel' ->
    execAll r n fuel bef aft = execAll r n fuel' bef aft.
Proof.
  intros Hr. induction fuel as [|f IH]; intros fuel' bef aft H1 H2; [lia|].
  destruct fuel' as [|f']; [lia|]. simpl.
  destruct (search r bef aft) as [m|] eqn:S; [|reflexivity].
  destruct (Hr _ _ _ S) as [Lo Hi].
  f_equal. apply IH; rewrite length_skipn; lia.
Qed.

End RegexFacts.

(* ================================================================== *)
(** ** services/javaParser.ts *)
(* ================================================================== *)

Module JavaParser.

Record JavaMethod : Type := mkJavaMethod {
  name : jsstring;
  signature : jsstring;
  returnType : jsstring;
  parameters : jsstring;
  modifiers : list jsstring;
  startLine : nat;
  endLine : nat
}.

Definition withEndLine (m : JavaMethod) (n : nat) : JavaMethod :=
  mkJavaMethod (name m) (signature m) (returnType m) (parameters m)
               (modifiers m) (startLine m) n.

Definition visibility : regex :=
  Opt (alts [str "public"; str "private"; str "protected"]).

(** The method pattern, piece by piece (pieces are concatenated as they
    stand):
<<
    ^\s*
    ((?:public|private|protected|static|final|abstract|synchronized|native|strictfp)\s+)*
    (\w+(?:<[^>]+>)?(?:\[\])?)
    \s+  (\w+)  \s*  \(  ([^)]* )  \)  \s*
    (?:throws\s+[\w\s,]+)?  \s*  \{?
>> *)
Definition methodRegex : regex :=
  seqs [ Bol false; Star ws;
         Star (Group 1
                 (Seq (alts [str "public"; str "private"; str "protected";
                             str "static"; str "final"; str "abstract";
                             str "synchronized"; str "native"; str "strictfp"])
                      (Plus ws)));
         Group 2 (seqs [ Plus word;
                         Opt (seqs [chr "<"; Plus (notchr ">"); chr ">"]);
                         Opt (str "[]") ]);
         Plus ws;
         Group 3 (Plus word);
         Star ws; chr "(";
         Group 4 (Star (notchr ")"));
         chr ")"; Star ws;
         Opt (seqs [ str "throws"; Plus ws;
                     Plus (Chr (fun c => is_word c || is_space c || (c =? 44)%N)) ]);
         Star ws; Opt (chr "{") ].

(** "/^\s*(?:public|private|protected)?\s*class\s+/" and its siblings for
    [interface] and [enum]; "/^\s*@/". *)
Definition skipPatterns : list regex :=
  [ seqs [Bol false; Star ws; visibility; Star ws; str "class"; Plus ws];
    seqs [Bol false; Star ws; visibility; Star ws; str "interface"; Plus ws];
    seqs [Bol false; Star ws; visibility; Star ws; str "enum"; Plus ws];
    seqs [Bol false; Star ws; chr "@"] ].

(** "/^\s*(?:public|private|protected)?\s*(?:abstract\s+)?class\s+/" *)
Definition classRegex : regex :=
  seqs [ Bol false; Star ws; visibility; Star ws;
         Opt (Seq (str "abstract") (Plus ws)); str "class"; Plus ws ].

Definition openBrace : N := 123.
Definition closeBrace : N := 125.

(** [s.split(/\s+/).filter(m => m)]: the maximal runs of non-blank units. *)
Fixpoint fields (cur : jsstring) (s : jsstring) : list jsstring :=
  match s with
  | [] => [rev cur]
  | c :: r => if is_space c then rev cur :: fields [] r else fields (c :: cur) r
  end.

Definition splitBlank (s : jsstring) : list jsstring :=
  filter (fun w => negb (jseqb w [])) (fields [] s).

(** State of the loop in [extractMethods]. *)
Record scan : Type := mkScan {
  methods : list JavaMethod;
  braceCount : Z;
  inMethod : bool;
  currentMethod : option JavaMethod;
  classStarted : bool
}.

Definition initScan : scan := mkScan [] 0 false None false.

(** The guard that skips empty lines and comment lines. *)
Definition blankOrComment (line : jsstring) : bool :=
  let t := trim line in
  jseqb t [] || startsWith t (lit "//") || startsWith t (lit "*")
  || startsWith t (lit "/*").

Definition braceDelta (line : jsstring) : Z :=
  countMatches (N.eqb openBrace) line - countMatches (N.eqb closeBrace) line.

Definition orEmpty (o : option jsstring) : jsstring :=
  match o with Some s => s | None => [] end.

(** The method record built from a match of [methodRegex]. *)
Definition methodOfMatch (m : matched) (lineNum : nat) : JavaMethod :=
  let modifiersStr := orEmpty (group 1 m) in
  let mods := splitBlank (trim modifiersStr) in
  let rt := orEmpty (group 2 m) in
  let nm := orEmpty (group 3 m) in
  let params := trim (orEmpty (group 4 m)) in
  let sig := trim (join (lit " ") mods ++ lit " " ++ rt ++ lit " " ++ nm
                     ++ lit "(" ++ params ++ lit ")") in
  mkJavaMethod nm sig rt params mods lineNum lineNum.

(** One iteration of the [for] loop, on line [i] (0-based). *)
Definition step (st : scan) (i : nat) (line : jsstring) : scan :=
  let lineNum := S i in
  if blankOrComment line then st
  else if test classRegex line then
    mkScan (methods st) (braceCount st) (inMethod st) (currentMethod st) true
  else if existsb (fun p => test p line) skipPatterns then st
  else
    match inMethod st, currentMethod st with
    | true, Some cm =>
        let bc := (braceCount st + countMatches (N.eqb openBrace) line
                   - countMatches (N.eqb closeBrace) line)%Z in
        if (bc <=? 0)%Z then
          mkScan (methods st ++ [withEndLine cm lineNum]) 0 false None
                 (classStarted st)
        else
          mkScan (methods st) bc (inMethod st) (currentMethod st)
                 (classStarted st)
    | _, _ =>
        if classStarted st then
          match exec methodRegex line with
          | Some m =>
              let cm := methodOfMatch m lineNum in
              if jseqb (returnType cm) (name cm) then st
              else if includes line [openBrace] then
                let bc := braceDelta line in
                if (0 <? bc)%Z then
                  mkScan (methods st) bc true (Some cm) (classStarted st)
                else
                  mkScan (methods st ++ [withEndLine cm lineNum]) bc
                         (inMethod st) None (classStarted st)
              else
                mkScan (methods st) 0 true (Some cm) (classStarted st)
          | None => st
          end
        else st
    end.

Fixpoint scanLines (i : nat) (lines : list jsstring) (st : scan) : scan :=
  match lines with
  | [] => st
  | l :: rest => scanLines (S i) rest (step st i l)
  end.

Definition scanSource (sourceCode : jsstring) : scan :=
  scanLines 0 (split NL sourceCode) initScan.

Definition extractMethods (sourceCode : jsstring) : list JavaMethod :=
  methods (scanSource sourceCode).

(** The import pattern, flags g and m: "^\s*import\s+", then group 1, which
    is "[\w.]+" followed by an optional "\.\*", then "\s*;". *)
Definition importRegex : regex :=
  seqs [ Bol true; Star ws; str "import"; Plus ws;
         Group 1 (Seq (Plus (Chr (fun c => is_word c || (c =? 46)%N)))
                      (Opt (str ".*")));
         Star ws; chr ";" ].

Definition extractImports (sourceCode : jsstring) : list jsstring :=
  execAll importRegex 1 (S (length sourceCode)) [] sourceCode.

(** "/^\s*import\s+/" *)
Definition importLineRegex : regex :=
  seqs [Bol false; Star ws; str "import"; Plus ws].

(** "/^\s*(?:public\s+)?class\s+/" *)
Definition classLineRegex : regex :=
  seqs [ Bol false; Star ws; Opt (Seq (str "public") (Plus ws));
         str "class"; Plus ws ].

(** The loop that looks for the insertion point; [i] is the index of the
    head of [lines], [insertIndex] the value found so far. *)
Fixpoint findInsertIndex (i : nat) (lines : list jsstring) (insertIndex : nat)
  : nat :=
  match lines with
  | [] => insertIndex
  | line :: rest =>
      if test importLineRegex line then findInsertIndex (S i) rest (S i)
      else if test classLineRegex line then insertIndex
      else findInsertIndex (S i) rest insertIndex
  end.

Definition mem (x : jsstring) (l : list jsstring) : bool :=
  existsb (jseqb x) l.

Definition importsToAdd (existingCode newCode : jsstring) : list jsstring :=
  filter (fun imp => negb (mem imp (extractImports existingCode)))
         (extractImports newCode).

Definition importLine (imp : jsstring) : jsstring :=
  lit "import " ++ imp ++ lit ";".

Definition mergeImports (existingCode newCode : jsstring) : jsstring :=
  let toAdd := importsToAdd existingCode newCode in
  match toAdd with
  | [] => existingCode
  | _ =>
      let lines := split NL existingCode in
      let insertIndex := findInsertIndex 0 lines 0 in
      join [NL] (firstn insertIndex lines ++ map importLine toAdd
                   ++ skipn insertIndex lines)
  end.

(** *** Sample inputs *)

(** The unit of the specification's end-to-end example. *)
Definition calculatorSource : jsstring :=
  join [NL]
    [ lit "package com.example;";
      lit "public class Calculator {";
      lit "    public int add(int a, int b) {";
      lit "        return a + b;";
      lit "    }";
      lit "}" ].

(** A class whose second line has the same token as result type and name. *)
Definition sameNameSource : jsstring :=
  join [NL]
    [ lit "class Foo {";
      lit "    Foo Foo() {";
      lit "    }";
      lit "    int bar() { return 1; }";
      lit "}" ].

(** A method outside any class. *)
Definition noClassSource : jsstring :=
  join [NL]
    [ lit "public int add(int a, int b) {";
      lit "    return a + b;";
      lit "}" ].

End JavaParser.

Import JavaParser.


(* ================================================================== *)
(** ** The scanner: what [extractMethods] emits *)
(* ================================================================== *)

Module Scanner.

(** The transitions of one loop iteration, as a relation: the iteration
    leaves the state alone, records the class line, counts braces inside a
    body, closes the open method, opens a method, or emits a method that
    opens and closes on its declaration line. *)
Inductive transition (st : scan) (i : nat) (line : jsstring) : scan -> Prop :=
| TSkip :
    transition st i line st
| TClass :
    blankOrComment line = false ->
    test classRegex line = true ->
    transition st i line
      (mkScan (methods st) (braceCount st) (inMethod st) (currentMethod st) true)
| TCount cm bc :
    inMethod st = true -> currentMethod st = Some cm ->
    transition st i line
      (mkScan (methods st) bc (inMethod st) (currentMethod st) (classStarted st))
| TClose cm :
    inMethod st = true -> currentMethod st = Some cm ->
    transition st i line
      (mkScan (methods st ++ [withEndLine cm (S i)]) 0 false None
              (classStarted st))
| TOpen m bc :
    classStarted st = true ->
    exec methodRegex line = Some m ->
    jseqb (returnType (methodOfMatch m (S i))) (name (methodOfMatch m (S i)))
      = false ->
    transition st i line
      (mkScan (methods st) bc true (Some (methodOfMatch m (S i)))
              (classStarted st))
| TSingle m bc :
    classStarted st = true ->
    exec methodRegex line = Some m ->
    jseqb (returnType (methodOfMatch m (S i))) (name (methodOfMatch m (S i)))
      = false ->
    transition st i line
      (mkScan (methods st ++ [withEndLine (methodOfMatch m (S i)) (S i)]) bc
              (inMethod st) None (classStarted st)).




(** The open method, if any. *)
Definition pending (st : scan) : list JavaMethod :=
  match currentMethod st with Some cm => [cm] | None => [] end.

(** A method record comes from a line of the text that matched the method
    pattern with distinct result type and name. *)
Definition fromLine (lines : list jsstring) (m : JavaMethod) : Prop :=
  exists i line mt,
    startLine m = S i /\ nth_error lines i = Some line /\
    exec methodRegex line = Some mt /\
    m = withEndLine (methodOfMatch mt (S i)) (endLine m) /\
    jseqb (returnType m) (name m) = false.

(** A class-declaration line occurs among the first [n] lines. *)
Definition classSeenBefore (lines : list jsstring) (n : nat) : Prop :=
  exists j line,
    j < n /\ nth_error lines j = Some line /\
    blankOrComment line = false /\ test classRegex line = true.

(** *** The layout of a unit, read off its lines *)

















Ltac by_rule T :=
  let X := fresh "X" in
  pose proof T as X;
  repeat match goal with
         | E : inMethod _ = _ |- _ => rewrite E in X
         | E : classStarted _ = _ |- _ => rewrite E in X
         | E : currentMethod _ = _ |- _ => rewrite E in X
         end;
  exact X.

Lemma step_transition st i line : transition st i line (step st i line).
Proof.
  unfold step.
  destruct (blankOrComment line) eqn:Hb; [constructor|].
  destruct (test classRegex line) eqn:Hc; [now constructor|].
  destruct (existsb _ skipPatterns); [constructor|].
  assert (D : classStarted st = true ->
              transition st i line
                (match exec methodRegex line with
                 | Some m =>
                     let cm := methodOfMatch m (S i) in
                     if jseqb (returnType cm) (name cm) then st
                     else if includes line [openBrace] then
                       let bc := braceDelta line in
                       if (0 <? bc)%Z then
                         mkScan (methods st) bc true (Some cm) (classStarted st)
                       else
                         mkScan (methods st ++ [withEndLine cm (S i)]) bc
                                (inMethod st) None (classStarted st)
                     else mkScan (methods st) 0 true (Some cm) (classStarted st)
                 | None => st
                 end)).
  { intros Hs.
    destruct (exec methodRegex line) as [m|] eqn:Hm; [|constructor].
    cbv zeta.
    destruct (jseqb _ _) eqn:Hj; [constructor|].
    destruct (includes line _).
    - destruct (0 <? _)%Z.
      + exact (TOpen st i line (braceDelta line) Hs Hm Hj).
      + exact (TSingle st i line (braceDelta line) Hs Hm Hj).
    - exact (TOpen st i line 0%Z Hs Hm Hj). }
  destruct (inMethod st) eqn:Hin, (currentMethod st) as [cm|] eqn:Hcm.
  - destruct (_ <=? 0)%Z.
    + by_rule (TClose st i line Hin Hcm).
    + by_rule (TCount st i line
                 (braceCount st + countMatches (N.eqb openBrace) line
                  - countMatches (N.eqb closeBrace) line)%Z Hin Hcm).
  - destruct (classStarted st) eqn:Hs; [|constructor].
    rewrite ?Hin, ?Hs in D. now apply D.
  - destruct (classStarted st) eqn:Hs; [|constructor].
    rewrite ?Hin, ?Hs in D. now apply D.
  - destruct (classStarted st) eqn:Hs; [|constructor].
    rewrite ?Hin, ?Hs in D. now apply D.
Qed.

(** Induction over the loop: a property of (lines read, state) that holds
    initially and is kept by every iteration holds at the end. *)
Lemma scanLines_invariant (lines : list jsstring) (P : nat -> scan -> Prop) :
  P 0 initScan ->
  (forall i line st, nth_error lines i = Some line ->
                     P i st -> P (S i) (step st i line)) ->
  P (length lines) (scanLines 0 lines initScan).
Proof.
  intros H0 Hstep.
  assert (G : forall rest pre st,
             lines = pre ++ rest -> P (length pre) st ->
             P (length lines) (scanLines (length pre) rest st)).
  { induction rest as [|l rest IH]; intros pre st E HP; simpl.
    - subst lines. now rewrite app_nil_r.
    - specialize (IH (pre ++ [l]) (step st (length pre) l)).
      rewrite length_app in IH. simpl in IH.
      replace (length pre + 1) with (S (length pre)) in IH by lia.
      apply IH.
      + now rewrite <- app_assoc.
      + apply Hstep; [|assumption].
        subst lines. rewrite nth_error_app2 by lia.
        now rewrite Nat.sub_diag. }
  exact (G lines [] initScan eq_refl H0).
Qed.

(** *** Line ranges *)







(** *** Where a signature comes from *)

Definition originInv (lines : list jsstring) (_ : nat) (st : scan) : Prop :=
  forall m, In m (methods st ++ pending st) -> fromLine lines m.

Lemma fromLine_withEndLine lines m n :
  fromLine lines m -> fromLine lines (withEndLine m n).
Proof.
  intros (i & line & mt & Hs & Hn & He & Hm & Hj).
  exists i, line, mt. simpl. repeat split; auto.
  rewrite Hm. reflexivity.
Qed.

Lemma originInv_step lines i line st :
  nth_error lines i = Some line ->
  originInv lines i st -> originInv lines (S i) (step st i line).
Proof.
  intros Hline Hinv.
  assert (Hnew : forall mt,
             exec methodRegex line = Some mt ->
             jseqb (returnType (methodOfMatch mt (S i)))
                   (name (methodOfMatch mt (S i))) = false ->
             fromLine lines (methodOfMatch mt (S i))).
  { intros mt He Hj. exists i, line, mt. repeat split; auto. }
  destruct (step_transition st i line) as [| | cm bc Hin Hcm | cm Hin Hcm
                                           | mt bc Hs He Hj | mt bc Hs He Hj ];
    unfold originInv, pending in *; simpl; intros m Hm; auto.
  - rewrite app_nil_r in Hm. rewrite Hcm in Hinv.
    apply in_app_or in Hm. destruct Hm as [Hm|[<-|[]]].
    + apply Hinv, in_or_app. now left.
    + apply fromLine_withEndLine, Hinv, in_or_app. right. now left.
  - apply in_app_or in Hm. destruct Hm as [Hm|[<-|[]]].
    + apply Hinv, in_or_app. now left.
    + now apply Hnew.
  - rewrite app_nil_r in Hm.
    apply in_app_or in Hm. destruct Hm as [Hm|[<-|[]]].
    + apply Hinv, in_or_app. now left.
    + apply fromLine_withEndLine. now apply Hnew.
Qed.

Lemma origin_scan lines m :
  In m (methods (scanLines 0 lines initScan)) -> fromLine lines m.
Proof.
  intros Hm.
  apply (scanLines_invariant lines (originInv lines)).
  - intros x [].
  - intros i line st. apply originInv_step.
  - apply in_or_app. now left.
Qed.

(** *** The class line comes first *)

Definition classInv (lines : list jsstring) (n : nat) (st : scan) : Prop :=
  (classStarted st = true -> classSeenBefore lines n) /\
  forall m, In m (methods st ++ pending st) ->
            classSeenBefore lines (startLine m - 1).

Lemma classSeenBefore_mono lines n k :
  n <= k -> classSeenBefore lines n -> classSeenBefore lines k.
Proof.
  intros Hle (j & line & Hj & Hrest). exists j, line. split; [lia|exact Hrest].
Qed.

Lemma classInv_step lines i line st :
  nth_error lines i = Some line ->
  classInv lines i st -> classInv lines (S i) (step st i line).
Proof.
  intros Hline (Hc & Hm).
  destruct (step_transition st i line) as [| Hb Ht | cm bc Hin Hcm | cm Hin Hcm
                                           | mt bc Hs He Hj | mt bc Hs He Hj ];
    unfold classInv, pending in *; simpl; split; intros; auto;
    try (apply classSeenBefore_mono with (n := i); [lia|auto]; fail).
  - exists i, line. repeat split; auto.
  - rewrite app_nil_r in H. rewrite Hcm in Hm.
    apply in_app_or in H. destruct H as [H|[<-|[]]].
    + apply Hm, in_or_app. now left.
    + simpl. apply Hm, in_or_app. right. now left.
  - apply in_app_or in H. destruct H as [H|[<-|[]]].
    + apply Hm, in_or_app. now left.
    + simpl. rewrite Nat.sub_0_r. auto.
  - rewrite app_nil_r in H.
    apply in_app_or in H. destruct H as [H|[<-|[]]].
    + apply Hm, in_or_app. now left.
    + simpl. rewrite Nat.sub_0_r. auto.
Qed.

Lemma classInv_scan lines :
  classInv lines (length lines) (scanLines 0 lines initScan).
Proof.
  apply (scanLines_invariant lines (classInv lines)).
  - split; [discriminate|intros m []].
  - intros i line st. apply classInv_step.
Qed.

(** *** One signature per member *)













(** The end-to-end example of the specification. *)
Example extractMethods_calculator :
  extractMethods calculatorSource
  = [ mkJavaMethod (lit "add") (lit "public int add(int a, int b)") (lit "int")
                   (lit "int a, int b") [lit "public"] 3 5 ].
Proof. vm_compute. reflexivity. Qed.




(** C9. A candidate whose captured result type equals its captured name is
    discarded: no signature returned by [extractMethods] has a result type
    equal to its name, and no signature starts on a line that matches the
    method pattern with group 2 equal to group 3. *)
Theorem extractMethods_discards_constructors (sourceCode : jsstring) :
  (forall m, In m (extractMethods sourceCode) -> returnType m <> name m) /\
  (forall i line mt,
     nth_error (split NL sourceCode) i = Some line ->
     exec methodRegex line = Some mt ->
     group 2 mt = group 3 mt ->
     forall m, In m (extractMethods sourceCode) -> startLine m <> S i).
Proof.
  split.
  - intros m Hm E.
    destruct (origin_scan _ _ Hm) as (i & line & mt & _ & _ & _ & _ & Hj).
    unfold jseqb in Hj. rewrite E in Hj.
    now destruct (list_eq_dec N.eq_dec (name m) (name m)).
  - intros i line mt Hline Hexec Hg m Hm Hstart.
    destruct (origin_scan _ _ Hm) as (i' & line' & mt' & Hs & Hl & He & Hrec & Hj).
    assert (i' = i) by lia. subst i'.
    rewrite Hline in Hl. injection Hl as <-.
    rewrite Hexec in He. injection He as <-.
    rewrite Hrec in Hj. simpl in Hj. rewrite Hg in Hj.
    unfold jseqb in Hj.
    now destruct (list_eq_dec N.eq_dec (orEmpty (group 3 mt)) (orEmpty (group 3 mt))).
Qed.

Lemma extractMethods_discards_constructors_witness :
  exists line mt,
    nth_error (split NL sameNameSource) 1 = Some line /\
    exec methodRegex line = Some mt /\
    group 2 mt = group 3 mt /\
    forall m, In m (extractMethods sameNameSource) -> startLine m <> 2.
Proof.
  eexists. eexists.
  assert (H1 : nth_error (split NL sameNameSource) 1
               = Some (lit "    Foo Foo() {")) by (vm_compute; reflexivity).
  split; [exact H1|].
  split; [vm_compute; reflexivity|].
  split; [vm_compute; reflexivity|].
  refine (proj2 (extractMethods_discards_constructors sameNameSource)
                1 _ _ H1 _ _); vm_compute; reflexivity.
Defined.

(** C10. Without a class-declaration line there are no signatures, and
    every signature that is returned starts after a class-declaration line
    that the scanner has read. *)
Theorem extractMethods_needs_class_line (sourceCode : jsstring) :
  ((forall line, In line (split NL sourceCode) -> test classRegex line = false) ->
   extractMethods sourceCode = []) /\
  (forall m, In m (extractMethods sourceCode) ->
     classSeenBefore (split NL sourceCode) (startLine m - 1)).
Proof.
  assert (G : forall m, In m (extractMethods sourceCode) ->
                        classSeenBefore (split NL sourceCode) (startLine m - 1)).
  { intros m Hm.
    destruct (classInv_scan (split NL sourceCode)) as [_ H].
    apply H, in_or_app. now left. }
  split; [|exact G].
  intros Hno.
  destruct (extractMethods sourceCode) as [|m ms] eqn:E; [reflexivity|].
  destruct (G m (or_introl eq_refl)) as (j & line & _ & Hn & _ & Ht).
  apply nth_error_In in Hn. rewrite (Hno _ Hn) in Ht. discriminate.
Qed.

Lemma extractMethods_needs_class_line_witness :
  (forall line, In line (split NL noClassSource) -> test classRegex line = false) /\
  test methodRegex (lit "public int add(int a, int b) {") = true /\
  extractMethods noClassSource = [].
Proof.
  assert (H : forall line, In line (split NL noClassSource) ->
                           test classRegex line = false).
  { intros line [<-|[<-|[<-|[]]]]; vm_compute; reflexivity. }
  split; [exact H|].
  split; [vm_compute; reflexivity|].
  exact (proj1 (extractMethods_needs_class_line noClassSource) H).
Defined.

End Scanner.

(* ================================================================== *)
(** ** services/pathResolver.ts *)
(* ================================================================== *)

Module PathResolver.

Definition slash : N := 47.
Definition backslash : N := 92.
Definition dot : N := 46.

(** *** Node's [path] module, POSIX flavour *)

Record ParsedPath : Type := mkParsed {
  root : jsstring;
  dir : jsstring;
  base : jsstring;
  ext : jsstring;
  pname : jsstring
}.

Fixpoint takeWhile (p : N -> bool) (s : jsstring) : jsstring :=
  match s with
  | [] => []
  | c :: r => if p c then c :: takeWhile p r else []
  end.

Definition notSlash (c : N) : bool := negb (c =? slash)%N.
Definition notDot (c : N) : bool := negb (c =? dot)%N.

(** Name and extension of a base name: the extension starts at the last
    dot, unless there is none, it is the first unit, or the base is [..]. *)
Definition splitExt (b : jsstring) : jsstring * jsstring :=
  let rb := rev b in
  let extRev := takeWhile notDot rb in
  match dropWhile notDot rb with
  | [] => (b, [])
  | _ :: nameRev =>
      if jseqb nameRev [] || jseqb b [dot; dot] then (b, [])
      else (rev nameRev, dot :: rev extRev)
  end.

(** [path.parse]. *)
Definition parse (p : jsstring) : ParsedPath :=
  match p with
  | [] => mkParsed [] [] [] [] []
  | c :: rest =>
      let isAbsolute := (c =? slash)%N in
      let rt := if isAbsolute then [slash] else [] in
      let body := if isAbsolute then rest else p in
      let rb := dropWhile (N.eqb slash) (rev body) in
      let b := rev (takeWhile notSlash rb) in
      let d := match dropWhile notSlash rb with
               | [] => rt
               | _ :: dr => rt ++ rev dr
               end in
      let (n, e) := splitExt b in
      mkParsed rt d b e n
  end.

(** The segment stack of [normalizeString]. *)
Fixpoint normSegments (allowAboveRoot : bool) (segs : list jsstring)
  (stack : list jsstring) : list jsstring :=
  match segs with
  | [] => rev stack
  | s :: r =>
      if jseqb s [] || jseqb s [dot] then normSegments allowAboveRoot r stack
      else if jseqb s [dot; dot] then
        match stack with
        | top :: below =>
            if jseqb top [dot; dot] then
              normSegments allowAboveRoot r
                (if allowAboveRoot then s :: stack else stack)
            else normSegments allowAboveRoot r below
        | [] =>
            normSegments allowAboveRoot r
              (if allowAboveRoot then [s] else [])
        end
      else normSegments allowAboveRoot r (s :: stack)
  end.

(** [path.normalize]. *)
Definition normalize (p : jsstring) : jsstring :=
  match p with
  | [] => [dot]
  | c :: _ =>
      let isAbsolute := (c =? slash)%N in
      let trailing := match rev p with l :: _ => (l =? slash)%N | [] => false end in
      let res := join [slash] (normSegments (negb isAbsolute) (split slash p) []) in
      match res with
      | [] => if isAbsolute then [slash]
              else if trailing then [dot; slash] else [dot]
      | _ => (if isAbsolute then [slash] else [])
               ++ res ++ (if trailing then [slash] else [])
      end
  end.

(** [path.join]. *)
Definition pjoin (args : list jsstring) : jsstring :=
  match filter (fun a => negb (jseqb a [])) args with
  | [] => [dot]
  | parts => normalize (join [slash] parts)
  end.

(** *** The resolver *)

(** [s.replace(/\\/g, '/')]. *)
Definition normalizeSeparators (s : jsstring) : jsstring :=
  map (fun c => if (c =? backslash)%N then slash else c) s.

Definition convertToTestPath (relativePath : jsstring) : jsstring :=
  let normalizedPath := normalizeSeparators relativePath in
  if includes normalizedPath (lit "src/main/java") then
    replaceFirst normalizedPath (lit "src/main/java") (lit "src/test/java")
  else if includes normalizedPath (lit "main/java") then
    replaceFirst normalizedPath (lit "main/java") (lit "test/java")
  else if includes normalizedPath (lit "src/main/kotlin") then
    replaceFirst normalizedPath (lit "src/main/kotlin") (lit "src/test/kotlin")
  else
    let parsed := parse normalizedPath in
    pjoin [lit "src"; lit "test"; lit "java"; dir parsed; base parsed].

(** [vscode.Uri.joinPath(folder, p)], kept symbolic. *)
Inductive Uri : Type :=
| JoinPath : jsstring -> jsstring -> Uri.

Inductive ResolveError : Type :=
| NoWorkspaceFolder : ResolveError.

(** [resolveTestPath]: [workspaceFolder] is the folder that contains the
    source ([None] when there is none), [relativePath] the source path
    relative to it, [suggestedPath] the optional override. *)
Definition resolveTestPath (workspaceFolder : option jsstring)
  (relativePath : jsstring) (suggestedPath : option jsstring)
  : ResolveError + Uri :=
  match workspaceFolder with
  | None => inl NoWorkspaceFolder
  | Some folder =>
      match suggestedPath with
      | Some (c :: s) => inr (JoinPath folder (c :: s))
      | _ =>
          let testPath := convertToTestPath relativePath in
          let parsed := parse testPath in
          let testPath' :=
            if endsWith (pname parsed) (lit "Test") then testPath
            else pjoin [dir parsed; pname parsed ++ lit "Test" ++ ext parsed] in
          inr (JoinPath folder testPath')
      end
  end.

(** C8. Without an override, the source path
    [src/main/java/com/example/Calculator.java] resolves to
    [src/test/java/com/example/CalculatorTest.java] in any workspace folder:
    the [src/main/java] segment is rewritten to [src/test/java], the unit
    name [Calculator] does not end with [Test], and the suffix is put before
    the extension. *)
Theorem resolveTestPath_calculator (folder : jsstring) :
  let source := lit "src/main/java/com/example/Calculator.java" in
  convertToTestPath source = lit "src/test/java/com/example/Calculator.java" /\
  pname (parse (convertToTestPath source)) = lit "Calculator" /\
  ext (parse (convertToTestPath source)) = lit ".java" /\
  endsWith (pname (parse (convertToTestPath source))) (lit "Test") = false /\
  resolveTestPath (Some folder) source None
  = inr (JoinPath folder (lit "src/test/java/com/example/CalculatorTest.java")).
Proof.
  intros source.
  assert (E : convertToTestPath source
              = lit "src/test/java/com/example/Calculator.java")
    by (vm_compute; reflexivity).
  split; [exact E|].
  unfold resolveTestPath. rewrite E.
  split; [vm_compute; reflexivity|].
  split; [vm_compute; reflexivity|].
  split; [vm_compute; reflexivity|].
  vm_compute. reflexivity.
Qed.

End PathResolver.

(* ================================================================== *)
(** ** ui/sidebarProvider.ts: running the tests *)
(* ================================================================== *)

Module SidebarProvider.

Inductive BuildTool : Type := maven | gradle.

Definition identStart (c : N) : bool :=
  is_lower c || is_upper c || (c =? 95)%N || (c =? 36)%N.

Definition identPart (c : N) : bool :=
  is_lower c || is_upper c || is_digit c || (c =? 95)%N || (c =? 36)%N.

(** The name pattern: "^", an identifier "[a-zA-Z_$][a-zA-Z0-9_$]*", any
    number of groups made of "\." and an identifier, an optional "\*",
    then "$". *)
Definition validPattern : regex :=
  seqs [ Bol false; Chr identStart; Star (Chr identPart);
         Star (Group 1 (seqs [chr "."; Chr identStart; Star (Chr identPart)]));
         Opt (chr "*"); Eol ].

Definition _validateTestClassName (name : jsstring) : bool :=
  test validPattern name && (length name <=? 256).

(** The strings the name pattern describes, spelled out: identifiers
    separated by dots, optionally followed by one star. *)
Definition identifier (w : jsstring) : Prop :=
  exists c r, w = c :: r /\ identStart c = true /\ forallb identPart r = true.

Definition targetName (s : jsstring) : Prop :=
  exists first rest (star : bool),
    identifier first /\ Forall identifier rest /\
    s = first ++ concat (map (cons 46%N) rest) ++ (if star then [42%N] else []).

(** *** The process runner

    The promise built by [_executeCommand] and the handlers it installs on
    the child process.  A promise settles once: later calls of [resolve] or
    [reject] change nothing. *)

Inductive RunError : Type :=
| ChildError : jsstring -> RunError       (* the Error of an 'error' event *)
| ExitedWithCode : option Z -> RunError   (* "Command exited with code ..." *)
| TimedOut : RunError.                    (* "Command timed out after 5 minutes" *)

Inductive Settled : Type :=
| Resolved : jsstring -> Settled
| Rejected : RunError -> Settled.

Record Runner : Type := mkRunner {
  stdout : jsstring;
  stderr : jsstring;
  promise : option Settled;
  killed : bool                            (* child.kill('SIGTERM') was called *)
}.

Definition spawned : Runner := mkRunner [] [] None false.

Definition settle (s : Settled) (r : Runner) : Runner :=
  match promise r with
  | Some _ => r
  | None => mkRunner (stdout r) (stderr r) (Some s) (killed r)
  end.

Definition onStdoutData (data : jsstring) (r : Runner) : Runner :=
  mkRunner (stdout r ++ data) (stderr r) (promise r) (killed r).

Definition onStderrData (data : jsstring) (r : Runner) : Runner :=
  mkRunner (stdout r) (stderr r ++ data) (promise r) (killed r).

Definition onError (message : jsstring) (r : Runner) : Runner :=
  settle (Rejected (ChildError message)) r.

(** [code] is the exit code, [None] when the process was ended by a signal
    (the handler then receives [null]). *)
Definition isZero (code : option Z) : bool :=
  match code with Some 0%Z => true | _ => false end.

Definition isEmpty (s : jsstring) : bool :=
  match s with [] => true | _ => false end.

Definition onClose (code : option Z) (r : Runner) : Runner :=
  let output := stdout r ++ [NL] ++ stderr r in
  if negb (isZero code) && isEmpty (stdout r) && isEmpty (stderr r)
  then settle (Rejected (ExitedWithCode code)) r
  else settle (Resolved output) r.

Definition onTimeout (r : Runner) : Runner :=
  settle (Rejected TimedOut)
         (mkRunner (stdout r) (stderr r) (promise r) true).

Definition timeoutMs : Z := 5 * 60 * 1000.

(** What the runtime delivers to the handlers. *)
Inductive ChildEvent : Type :=
| StdoutData : jsstring -> ChildEvent
| StderrData : jsstring -> ChildEvent
| ErrorEvent : jsstring -> ChildEvent
| CloseEvent : option Z -> ChildEvent
| TimerFired : ChildEvent.

Definition handle (r : Runner) (e : ChildEvent) : Runner :=
  match e with
  | StdoutData d => onStdoutData d r
  | StderrData d => onStderrData d r
  | ErrorEvent m => onError m r
  | CloseEvent code => onClose code r
  | TimerFired => onTimeout r
  end.

Definition run (events : list ChildEvent) : Runner :=
  fold_left handle events spawned.

(** The promise returned by [_executeCommand] after the given events:
    [None] while it is pending. *)
Definition _executeCommand (events : list ChildEvent) : option Settled :=
  promise (run events).

Definition errorMessage (e : RunError) : jsstring :=
  match e with
  | ChildError m => m
  | ExitedWithCode (Some c) =>
      lit "Command exited with code "
        ++ lit (NilZero.string_of_int (Z.to_int c))
  | ExitedWithCode None => lit "Command exited with code null"
  | TimedOut => lit "Command timed out after 5 minutes"
  end.

(** *** Classification and the test run *)

Section Classifier.

(** [String.prototype.toLowerCase]; on ASCII text it is [asciiLower]. *)
Variable toLowerCase : jsstring -> jsstring.

Definition _parseTestResult (output : jsstring) (buildTool : option BuildTool)
  : bool :=
  let lowerOutput := toLowerCase output in
  match buildTool with
  | Some gradle =>
      if includes lowerOutput (lit "build successful")
         || (includes lowerOutput (lit "test")
             && negb (includes lowerOutput (lit "failed"))
             && negb (includes lowerOutput (lit "failure")))
      then true
      else negb (includes lowerOutput (lit "build failed"))
           && negb (includes lowerOutput (lit "test failed"))
           && negb (includes lowerOutput (lit "failures:"))
  | Some maven =>
      if includes lowerOutput (lit "build success") then true
      else negb (includes lowerOutput (lit "build failure"))
           && negb (includes lowerOutput (lit "tests run:"))
           && negb (includes lowerOutput (lit "failures:"))
  | None =>
      negb (includes lowerOutput (lit "fail"))
      && negb (includes lowerOutput (lit "error"))
  end.

Definition relevantLine (line : jsstring) : bool :=
  let lowerLine := toLowerCase line in
  includes lowerLine (lit "test") || includes lowerLine (lit "passed")
  || includes lowerLine (lit "failed") || includes lowerLine (lit "success")
  || includes lowerLine (lit "failure") || includes lowerLine (lit "error")
  || includes lowerLine (lit "build") || includes lowerLine (lit "running")
  || startsWith (trim line) (lit ">").

Definition _formatTestOutput (output : jsstring) : jsstring :=
  let relevantLines := filter relevantLine (split NL output) in
  let maxLines := 30 in
  if maxLines <? length relevantLines then
    join [NL] (firstn maxLines relevantLines) ++ [NL] ++ lit "... (truncated)"
  else
    match join [NL] relevantLines with
    | [] => firstn 1000 output
    | s => s
    end.

(** What [_runTest] does to the outside world, in order. *)
Inductive Effect : Type :=
| PostTestRunning : Effect
| PostTestResult : bool -> jsstring -> Effect
| PostTestError : jsstring -> Effect
| Spawn : jsstring -> list jsstring -> jsstring -> Effect
| ShowInformation : jsstring -> Effect
| ShowWarning : jsstring -> Effect
| ShowError : jsstring -> Effect.

(** The surroundings of one run: the first workspace folder, the build tool
    that [_detectBuildTool] finds there, the platform, and how the promise
    of [_executeCommand] settles for a given command. *)
Record Environment : Type := mkEnv {
  workspaceFolder : option jsstring;
  buildTool : option BuildTool;
  win32 : bool;
  execute : jsstring -> list jsstring -> jsstring -> Settled
}.

Definition failWith (message : jsstring) : list Effect :=
  [ PostTestError message;
    ShowError (lit "Test execution failed: " ++ message) ].

Definition _runTest (env : Environment) (testClassName : jsstring)
  : list Effect :=
  PostTestRunning ::
  if negb (_validateTestClassName testClassName) then
    failWith (lit "Invalid test class name. Only valid Java class names are allowed.")
  else
    match workspaceFolder env with
    | None => failWith (lit "No workspace folder found")
    | Some cwd =>
        let launch (command : jsstring) (args : list jsstring) :=
          Spawn command args cwd ::
          match execute env command args cwd with
          | Rejected e => failWith (errorMessage e)
          | Resolved result =>
              let success := _parseTestResult result (buildTool env) in
              [ PostTestResult success (_formatTestOutput result);
                if success then ShowInformation (lit "All tests passed!")
                else ShowWarning
                       (lit "Some tests failed. Check the results below.") ]
          end in
        match buildTool env with
        | Some gradle =>
            launch (if win32 env then lit "gradlew.bat" else lit "./gradlew")
                   [lit "test"; lit "--tests"; testClassName; lit "--info"]
        | Some maven =>
            launch (lit "mvn") [lit "test"; lit "-Dtest=" ++ testClassName]
        | None => failWith (lit "No Maven or Gradle build file found")
        end
    end.

End Classifier.

(** The signals of the specification's keyword table. *)
Definition successPhrase (tool : BuildTool) : jsstring :=
  match tool with
  | gradle => lit "build successful"
  | maven => lit "build success"
  end.

Definition negativeSignals (tool : BuildTool) : list jsstring :=
  match tool with
  | gradle => [lit "build failed"; lit "test failed"; lit "failures:"]
  | maven => [lit "build failure"; lit "tests run:"; lit "failures:"]
  end.

Definition isSpawn (e : Effect) : bool :=
  match e with Spawn _ _ _ => true | _ => false end.

(** Build output in which both verdict phrases of Gradle occur. *)
Definition mixedGradleOutput : jsstring :=
  join [NL] [lit "> Task :test"; lit "BUILD SUCCESSFUL in 3s"; lit "BUILD FAILED"].

Definition failedGradleOutput : jsstring :=
  join [NL] [lit "> Task :test FAILED"; lit "BUILD FAILED in 2s"].

(** *** Facts about [includes] *)

Lemma startsWith_prefix s : forall p,
  startsWith s p = true <-> exists r, s = p ++ r.
Proof.
  induction s as [|b s IH]; intros [|a p]; simpl.
  - split; [now exists []|reflexivity].
  - split; [discriminate|intros [r [=]]].
  - split; [now exists (b :: s)|reflexivity].
  - rewrite andb_true_iff, N.eqb_eq, IH. split.
    + intros [-> [r ->]]. now exists r.
    + intros [r [= -> ->]]. split; [reflexivity|now exists r].
Qed.

Lemma includes_infix s : forall p,
  includes s p = true <-> exists a b, s = a ++ p ++ b.
Proof.
  induction s as [|c s IH]; intros p; cbn [includes]; rewrite orb_true_iff.
  - split.
    + intros [H|H]; [|discriminate].
      apply startsWith_prefix in H. destruct H as [r ->]. now exists [], r.
    + intros (a & b & E). left. apply startsWith_prefix.
      destruct a; [|discriminate]. now exists b.
  - split.
    + intros [H|H].
      * apply startsWith_prefix in H. destruct H as [r ->]. now exists [], r.
      * apply IH in H. destruct H as (a & b & ->). now exists (c :: a), b.
    + intros (a & b & E). destruct a as [|x a]; simpl in E.
      * left. apply startsWith_prefix. now exists b.
      * right. injection E as -> ->. apply IH. now exists a, b.
Qed.

Lemma includes_trans s p q :
  includes s p = true -> includes p q = true -> includes s q = true.
Proof.
  rewrite !includes_infix.
  intros (a & b & ->) (c & d & ->).
  exists (a ++ c), (d ++ b). now rewrite <- !app_assoc.
Qed.

Lemma includes_absent s p q :
  includes p q = true -> includes s q = false -> includes s p = false.
Proof.
  intros Hpq Hsq. destruct (includes s p) eqn:E; [|reflexivity].
  now rewrite (includes_trans _ _ _ E Hpq) in Hsq.
Qed.

(** C1 (as the code has it). For Gradle and Maven the verdict is negative
    exactly when the tool's success phrase (build successful, build success)
    is absent from the lower-cased output and one of the tool's negative
    signals is present.  A negative signal therefore overrides Gradle's
    generic heuristic (test without failed or failure), but not the success
    phrase. *)
Theorem parseTestResult_negative_iff
  (toLowerCase : jsstring -> jsstring) (output : jsstring) (tool : BuildTool) :
  _parseTestResult toLowerCase output (Some tool) = false <->
  includes (toLowerCase output) (successPhrase tool) = false /\
  existsb (includes (toLowerCase output)) (negativeSignals tool) = true.
Proof.
  unfold _parseTestResult. generalize (toLowerCase output) as low. intros low.
  destruct tool; simpl existsb; simpl successPhrase.
  - destruct (includes low (lit "build success")).
    + split; [discriminate|intros [[=] _]].
    + rewrite orb_false_r.
      destruct (includes low (lit "build failure")),
               (includes low (lit "tests run:")),
               (includes low (lit "failures:")); simpl; intuition congruence.
  - destruct (includes low (lit "build successful")).
    + split; [discriminate|intros [[=] _]].
    + rewrite orb_false_r, orb_false_l.
      destruct (includes low (lit "failed")) eqn:Hfd.
      * rewrite andb_false_r. simpl.
        destruct (includes low (lit "build failed")),
                 (includes low (lit "test failed")),
                 (includes low (lit "failures:")); simpl; intuition congruence.
      * rewrite (includes_absent low (lit "build failed") (lit "failed")
                   eq_refl Hfd).
        rewrite (includes_absent low (lit "test failed") (lit "failed")
                   eq_refl Hfd).
        destruct (includes low (lit "failure")) eqn:Hfr.
        -- rewrite andb_false_r.
           destruct (includes low (lit "failures:")); simpl; intuition congruence.
        -- rewrite (includes_absent low (lit "failures:") (lit "failure")
                      eq_refl Hfr).
           destruct (includes low (lit "test")); simpl; intuition congruence.
Qed.

Lemma parseTestResult_negative_iff_witness :
  includes (asciiLower failedGradleOutput) (successPhrase gradle) = false /\
  existsb (includes (asciiLower failedGradleOutput)) (negativeSignals gradle) = true /\
  _parseTestResult asciiLower failedGradleOutput (Some gradle) = false.
Proof.
  assert (H1 : includes (asciiLower failedGradleOutput) (successPhrase gradle)
               = false) by (vm_compute; reflexivity).
  assert (H2 : existsb (includes (asciiLower failedGradleOutput))
                       (negativeSignals gradle) = true) by (vm_compute; reflexivity).
  split; [exact H1|]. split; [exact H2|].
  exact (proj2 (parseTestResult_negative_iff asciiLower failedGradleOutput gradle)
               (conj H1 H2)).
Defined.

(** The claim as stated fails: with both build successful and build failed
    in the output, Gradle's verdict is positive. *)
Lemma parseTestResult_success_phrase_wins :
  ~ (forall output tool signal,
       In signal (negativeSignals tool) ->
       includes (asciiLower output) signal = true ->
       _parseTestResult asciiLower output (Some tool) = false).
Proof.
  intros H.
  assert (Hsig : includes (asciiLower mixedGradleOutput) (lit "build failed")
                 = true) by (vm_compute; reflexivity).
  assert (Hres : _parseTestResult asciiLower mixedGradleOutput (Some gradle)
                 = true) by (vm_compute; reflexivity).
  specialize (H mixedGradleOutput gradle (lit "build failed")
                (or_introl eq_refl) Hsig).
  rewrite Hres in H. discriminate H.
Qed.

(** *** The name pattern *)

Import RegexFacts.

Definition nameSegment : regex :=
  Group 1 (seqs [chr "."; Chr identStart; Star (Chr identPart)]).

Definition nameBody : list regex :=
  [Chr identStart; Star (Chr identPart); Star nameSegment; Opt (chr "*")].

Lemma Lang_identifier u v :
  Lang (Chr identStart) u -> Lang (Star (Chr identPart)) v -> identifier (u ++ v).
Proof.
  intros Lu Lv.
  apply Lang_chr_inv in Lu. destruct Lu as (c & -> & Hc).
  apply Lang_star_chr in Lv. now exists c, v.
Qed.

Lemma identifier_Lang w :
  identifier w -> Lang (Seq (Chr identStart) (Star (Chr identPart))) w.
Proof.
  intros (c & r & -> & Hc & Hr).
  apply (LSeq (a := Chr identStart) (u := [c]) (v := r)).
  - now constructor.
  - now apply Lang_star_chr.
Qed.

Lemma Lang_nameSegment u :
  Lang nameSegment u <-> exists w, identifier w /\ u = 46%N :: w.
Proof.
  unfold nameSegment. split.
  - intros Lx. apply Lang_group_inv in Lx. simpl in Lx.
    apply Lang_seq_inv in Lx. destruct Lx as (u1 & r1 & -> & L1 & Lx).
    apply Lang_seq_inv in Lx. destruct Lx as (u2 & r2 & -> & L2 & Lx).
    apply Lang_seq_inv in Lx. destruct Lx as (u3 & r3 & -> & L3 & Lx).
    apply Lang_eps_inv in Lx. subst r3.
    apply Lang_chr_inv in L1. destruct L1 as (c & -> & Hc).
    apply N.eqb_eq in Hc. simpl in Hc. subst c.
    exists (u2 ++ u3). split; [now apply Lang_identifier|].
    now rewrite app_nil_r.
  - intros (w & (c & r & -> & Hc & Hr) & ->).
    constructor. simpl.
    apply (LSeq (a := chr ".") (u := [46%N]) (v := c :: r)); [now constructor|].
    apply (LSeq (a := Chr identStart) (u := [c]) (v := r)); [now constructor|].
    rewrite <- (app_nil_r r).
    apply LSeq; [now apply Lang_star_chr|constructor].
Qed.

Lemma Lang_nameBody s : Lang (seqs nameBody) s <-> targetName s.
Proof.
  assert (Hne : forall u, Lang nameSegment u -> u <> []).
  { intros u L. apply Lang_nameSegment in L. destruct L as (w & _ & ->).
    discriminate. }
  unfold nameBody. simpl. split.
  - intros L.
    apply Lang_seq_inv in L. destruct L as (u1 & r1 & -> & L1 & L).
    apply Lang_seq_inv in L. destruct L as (u2 & r2 & -> & L2 & L).
    apply Lang_seq_inv in L. destruct L as (u3 & r3 & -> & L3 & L).
    apply Lang_seq_inv in L. destruct L as (u4 & r4 & -> & L4 & L).
    apply Lang_eps_inv in L. subst r4.
    apply (Lang_star_concat _ Hne) in L3. destruct L3 as (us & F & ->).
    assert (R : exists rest, Forall identifier rest /\ us = map (cons 46%N) rest).
    { clear -F. induction F as [|u us Hu F (rest & Fr & ->)].
      - now exists [].
      - apply Lang_nameSegment in Hu. destruct Hu as (w & Hw & ->).
        exists (w :: rest). split; [now constructor|reflexivity]. }
    destruct R as (rest & Fr & ->).
    assert (S : exists star : bool, u4 = if star then [42%N] else []).
    { apply Lang_alt_inv in L4. destruct L4 as [L4|L4].
      - apply Lang_chr_inv in L4. destruct L4 as (c & -> & Hc).
        apply N.eqb_eq in Hc. simpl in Hc. subst c. now exists true.
      - apply Lang_eps_inv in L4. subst. now exists false. }
    destruct S as (star & ->).
    exists (u1 ++ u2), rest, star.
    split; [now apply Lang_identifier|]. split; [exact Fr|].
    now rewrite app_nil_r, <- !app_assoc.
  - intros (first & rest & star & (c & r & -> & Hc & Hr) & Fr & ->).
    apply (LSeq (a := Chr identStart) (u := [c])); [now constructor|].
    apply LSeq; [now apply Lang_star_chr|].
    apply LSeq.
    + apply (Lang_star_concat _ Hne). exists (map (cons 46%N) rest).
      split; [|reflexivity].
      clear -Fr. induction Fr as [|w ws Hw F IH]; simpl; constructor; auto.
      apply Lang_nameSegment. now exists w.
    + rewrite <- (app_nil_r (if star then _ else _)).
      apply LSeq; [|constructor].
      destruct star; [apply LAltL; now constructor|apply LAltR; constructor].
Qed.

Lemma test_validPattern s : test validPattern s = true <-> targetName s.
Proof.
  rewrite <- Lang_nameBody.
  rewrite <- (MatchesWhole_anchored nameBody s eq_refl).
  exact (test_anchored _ s).
Qed.

(** No process is spawned for a name that fails validation. *)
Lemma runTest_invalid toLowerCase env name :
  _validateTestClassName name = false ->
  _runTest toLowerCase env name
  = [ PostTestRunning;
      PostTestError
        (lit "Invalid test class name. Only valid Java class names are allowed.");
      ShowError
        (lit "Test execution failed: Invalid test class name. Only valid Java class names are allowed.") ].
Proof. intros H. unfold _runTest. rewrite H. reflexivity. Qed.

(** C6. [_validateTestClassName] accepts exactly the strings of the name
    pattern (identifiers separated by dots, with an optional final star)
    that have at most 256 code units; it rejects
    [UserServiceTest; rm -rf /] and accepts [com.example.FooTest] and
    [Foo*]; and [_runTest] checks the name first: for a rejected name it
    reports the error and spawns no process, whatever the workspace. *)
Theorem validateTestClassName_spec :
  (forall name, _validateTestClassName name = true <->
                targetName name /\ length name <= 256) /\
  _validateTestClassName (lit "UserServiceTest; rm -rf /") = false /\
  _validateTestClassName (lit "com.example.FooTest") = true /\
  _validateTestClassName (lit "Foo*") = true /\
  (forall toLowerCase env name,
     _validateTestClassName name = false ->
     existsb isSpawn (_runTest toLowerCase env name) = false).
Proof.
  split; [|split; [|split; [|split]]].
  - intros name. unfold _validateTestClassName.
    rewrite andb_true_iff, test_validPattern, Nat.leb_le. reflexivity.
  - vm_compute. reflexivity.
  - vm_compute. reflexivity.
  - vm_compute. reflexivity.
  - intros toLowerCase env name H. now rewrite runTest_invalid.
Qed.

Lemma validateTestClassName_spec_witness :
  _validateTestClassName (lit "UserServiceTest; rm -rf /") = false /\
  existsb isSpawn
    (_runTest asciiLower
       (mkEnv (Some (lit "/work")) (Some gradle) false
              (fun _ _ _ => Resolved (lit "BUILD SUCCESSFUL")))
       (lit "UserServiceTest; rm -rf /")) = false /\
  targetName (lit "com.example.FooTest").
Proof.
  assert (H : _validateTestClassName (lit "UserServiceTest; rm -rf /") = false)
    by (vm_compute; reflexivity).
  split; [exact H|]. split.
  - exact (proj2 (proj2 (proj2 (proj2 validateTestClassName_spec))) _ _ _ H).
  - apply (proj1 validateTestClassName_spec). vm_compute. reflexivity.
Defined.

(** *** The close handler *)


Lemma run_snoc events e : run (events ++ [e]) = handle (run events) e.
Proof. unfold run. now rewrite fold_left_app. Qed.

Lemma isEmpty_true s : isEmpty s = true <-> s = [].
Proof. destruct s; simpl; split; congruence. Qed.

(** What the other handlers do: the timer calls [kill] and then rejects;
    an error event rejects and calls nothing; once settled, the promise
    keeps its value. *)
Lemma settled_stays (r : Runner) (e : ChildEvent) (s : Settled) :
  promise r = Some s -> promise (handle r e) = Some s.
Proof.
  intros H. destruct e; simpl; auto;
    unfold onError, onClose, onTimeout, settle; simpl; rewrite ?H; auto.
  destruct (negb (isZero o) && isEmpty (stdout r) && isEmpty (stderr r));
    now rewrite H.
Qed.

Lemma timeout_kills_then_rejects (events : list ChildEvent) :
  _executeCommand events = None ->
  _executeCommand (events ++ [TimerFired]) = Some (Rejected TimedOut) /\
  killed (run (events ++ [TimerFired])) = true.
Proof.
  unfold _executeCommand. intros Hp. rewrite run_snoc. simpl.
  unfold onTimeout, settle. simpl. now rewrite Hp.
Qed.

Lemma error_rejects_without_kill (events : list ChildEvent) (m : jsstring) :
  _executeCommand events = None ->
  _executeCommand (events ++ [ErrorEvent m]) = Some (Rejected (ChildError m)) /\
  killed (run (events ++ [ErrorEvent m])) = killed (run events).
Proof.
  unfold _executeCommand. intros Hp. rewrite run_snoc. simpl.
  unfold onError, settle. now rewrite Hp.
Qed.



End SidebarProvider.

(* ================================================================== *)
(** ** Merging imports *)
(* ================================================================== *)

Module ImportMerge.

Import RegexFacts.

(** *** Sample inputs *)

Definition existingNoImports : jsstring :=
  join [NL] [lit "package com.example;"; lit ""; lit "public class Foo {"; lit "}"].

Definition existingOneImport : jsstring :=
  join [NL] [ lit "package com.example;"; lit ""; lit "import java.util.Map;";
              lit ""; lit "public class Foo {"; lit "}" ].

Definition fragmentOneImport : jsstring :=
  join [NL] [lit "import java.util.List;"; lit ""; lit "public class FooTest {"; lit "}"].




(** *** The extraction loop terminates *)

Definition importBody : regex :=
  seqs [ Star ws; str "import"; Plus ws;
         Group 1 (Seq (Plus (Chr (fun c => is_word c || (c =? 46)%N)))
                      (Opt (str ".*")));
         Star ws; chr ";" ].

Lemma importRegex_progress bef aft m :
  search importRegex bef aft = Some m ->
  length bef < mend m /\ mend m <= length bef + length aft.
Proof.
  apply (search_progress importBody); [vm_compute; reflexivity|].
  vm_compute. lia.
Qed.

(** Any larger bound on the number of iterations gives the same list: the
    loop of [extractImports] ends by itself. *)
Lemma extractImports_fuel sourceCode fuel :
  length sourceCode < fuel ->
  execAll importRegex 1 fuel [] sourceCode = extractImports sourceCode.
Proof.
  intros H. unfold extractImports.
  apply execAll_enough; [exact importRegex_progress|exact H|lia].
Qed.

(** *** The insertion point *)

Lemma findInsertIndex_no_import lines : forall i k,
  (forall line, In line lines -> test importLineRegex line = false) ->
  findInsertIndex i lines k = k.
Proof.
  induction lines as [|l lines IH]; intros i k H; simpl; [reflexivity|].
  rewrite (H l (or_introl eq_refl)).
  destruct (test classLineRegex l); [reflexivity|].
  apply IH. intros line Hl. apply H. now right.
Qed.

(** The insertion index is either the initial one or just after an import
    line, and nothing between it and the place where the loop stops is an
    import line. *)
Lemma findInsertIndex_after_import lines : forall i k,
  k <= i ->
  let r := findInsertIndex i lines k in
  r = k \/
  (i < r /\ r <= i + length lines /\
   exists line, nth_error lines (r - 1 - i) = Some line /\
                test importLineRegex line = true).
Proof.
  induction lines as [|l lines IH]; intros i k Hk; simpl; [now left|].
  destruct (test importLineRegex l) eqn:Hi.
  - destruct (IH (S i) (S i) (le_n _)) as [E|(H1 & H2 & line & Hn & Ht)].
    + right. rewrite E. repeat split; try lia.
      exists l. replace (S i - 1 - i) with 0 by lia. now split.
    + right. repeat split; try lia.
      exists line. split; [|exact Ht].
      replace (findInsertIndex (S i) lines (S i) - 1 - i)
        with (S (findInsertIndex (S i) lines (S i) - 1 - S i)) by lia.
      exact Hn.
  - destruct (test classLineRegex l); [now left|].
    destruct (IH (S i) k (Nat.le_trans _ _ _ Hk (Nat.le_succ_diag_r i)))
      as [E|(H1 & H2 & line & Hn & Ht)]; [now left|].
    right. repeat split; try lia.
    exists line. split; [|exact Ht].
    replace (findInsertIndex (S i) lines k - 1 - i)
      with (S (findInsertIndex (S i) lines k - 1 - S i)) by lia.
    exact Hn.
Qed.

(** With an import line before the class line, the insertion index is just
    after the last such import line. *)
Lemma findInsertIndex_last_import pre l mid rest : forall i k,
  test importLineRegex l = true ->
  (forall x, In x pre ->
             test importLineRegex x = true \/ test classLineRegex x = false) ->
  (forall x, In x mid ->
             test importLineRegex x = false /\ test classLineRegex x = false) ->
  (rest = [] \/
   exists c rest', rest = c :: rest' /\ test importLineRegex c = false /\
                   test classLineRegex c = true) ->
  findInsertIndex i (pre ++ l :: mid ++ rest) k = S (i + length pre).
Proof.
  intros i k Hl Hpre Hmid Hrest. revert i k.
  induction pre as [|p pre IH]; intros i k; simpl.
  - rewrite Hl. rewrite Nat.add_0_r. generalize (S i) at 1 as j.
    induction mid as [|x mid IHm]; intros j; simpl.
    + destruct Hrest as [->|(c & rest' & -> & Hc1 & Hc2)]; simpl.
      * reflexivity.
      * now rewrite Hc1, Hc2.
    + destruct (Hmid x (or_introl eq_refl)) as [H1 H2]. rewrite H1, H2.
      apply IHm. intros y Hy. apply Hmid. now right.
  - assert (Hp : forall x, In x pre ->
                 test importLineRegex x = true \/ test classLineRegex x = false)
      by (intros x Hx; apply Hpre; now right).
    destruct (Hpre p (or_introl eq_refl)) as [H|H].
    + rewrite H. rewrite (IH Hp). lia.
    + destruct (test importLineRegex p).
      * rewrite (IH Hp). lia.
      * rewrite H. rewrite (IH Hp). lia.
Qed.

Lemma mergeImports_after_last_import existingCode newCode pre l mid rest :
  importsToAdd existingCode newCode <> [] ->
  split NL existingCode = pre ++ l :: mid ++ rest ->
  test importLineRegex l = true ->
  (forall x, In x pre ->
             test importLineRegex x = true \/ test classLineRegex x = false) ->
  (forall x, In x mid ->
             test importLineRegex x = false /\ test classLineRegex x = false) ->
  (rest = [] \/
   exists c rest', rest = c :: rest' /\ test importLineRegex c = false /\
                   test classLineRegex c = true) ->
  mergeImports existingCode newCode
  = join [NL] (pre ++ [l] ++ map importLine (importsToAdd existingCode newCode)
                 ++ mid ++ rest).
Proof.
  intros Hne Hs Hl Hpre Hmid Hrest. unfold mergeImports.
  destruct (importsToAdd existingCode newCode) as [|x xs] eqn:E; [congruence|].
  rewrite Hs, (@findInsertIndex_last_import pre l mid rest 0 0 Hl Hpre Hmid Hrest).
  simpl Nat.add.
  replace (pre ++ l :: mid ++ rest) with ((pre ++ [l]) ++ mid ++ rest)
    by now rewrite <- app_assoc.
  assert (Hlen : S (length pre) = length (pre ++ [l]))
    by (rewrite length_app; simpl; lia).
  rewrite Hlen, firstn_app, firstn_all, Nat.sub_diag, firstn_O, app_nil_r.
  rewrite skipn_app, skipn_all, Nat.sub_diag, skipn_O.
  now rewrite <- !app_assoc.
Qed.

(** C2. What the code does when the existing text has no import line: the
    new import lines go to the very top of the text, before every existing
    line, the package declaration included. *)
Theorem mergeImports_without_import_lines (existingCode newCode : jsstring) :
  importsToAdd existingCode newCode <> [] ->
  (forall line, In line (split NL existingCode) ->
                test importLineRegex line = false) ->
  mergeImports existingCode newCode
  = join [NL] (map importLine (importsToAdd existingCode newCode)
                 ++ split NL existingCode).
Proof.
  intros Hne Hno. unfold mergeImports.
  destruct (importsToAdd existingCode newCode) as [|x xs] eqn:E; [congruence|].
  now rewrite (findInsertIndex_no_import _ 0 0 Hno).
Qed.

Lemma mergeImports_without_import_lines_witness :
  importsToAdd existingNoImports fragmentOneImport = [lit "java.util.List"] /\
  nth_error (split NL existingNoImports) 2 = Some (lit "public class Foo {") /\
  mergeImports existingNoImports fragmentOneImport
  = join [NL] [ lit "import java.util.List;"; lit "package com.example;";
                lit ""; lit "public class Foo {"; lit "}" ].
Proof.
  assert (H1 : importsToAdd existingNoImports fragmentOneImport
               = [lit "java.util.List"]) by (vm_compute; reflexivity).
  split; [exact H1|]. split; [vm_compute; reflexivity|].
  rewrite (@mergeImports_without_import_lines existingNoImports fragmentOneImport).
  - rewrite H1. vm_compute. reflexivity.
  - rewrite H1. discriminate.
  - intros line [<-|[<-|[<-|[<-|[]]]]]; vm_compute; reflexivity.
Defined.

(** *** Merging twice *)

Lemma jseqb_eq a b : jseqb a b = true <-> a = b.
Proof. unfold jseqb. destruct (list_eq_dec N.eq_dec a b); intuition congruence. Qed.

Lemma mem_In x l : mem x l = true <-> In x l.
Proof.
  unfold mem. rewrite existsb_exists. split.
  - intros (y & Hy & E). apply jseqb_eq in E. now subst.
  - intros H. exists x. split; [exact H|now apply jseqb_eq].
Qed.

Lemma importsToAdd_In existingCode newCode x :
  In x (importsToAdd existingCode newCode) <->
  In x (extractImports newCode) /\ ~ In x (extractImports existingCode).
Proof.
  unfold importsToAdd. rewrite filter_In, negb_true_iff.
  rewrite <- mem_In with (l := extractImports existingCode).
  destruct (mem x (extractImports existingCode)); intuition congruence.
Qed.



(** *** Lines and lengths *)

Lemma split_nonempty sep s : split sep s <> [].
Proof.
  destruct s as [|c r]; simpl; [discriminate|].
  destruct (c =? sep)%N; [discriminate|].
  destruct (split sep r); discriminate.
Qed.










End ImportMerge.

(* ================================================================== *)
(** ** Lines of a text *)
(* ================================================================== *)

Module Lines.

Import ImportMerge.

(** A string without line feed. *)
Definition oneLine (s : jsstring) : Prop := ~ In NL s.

Lemma split_oneLine s : oneLine s -> split NL s = [s].
Proof.
  unfold oneLine. induction s as [|c r IH]; intros H; [reflexivity|].
  cbn [split]. destruct (c =? NL)%N eqn:E.
  - apply N.eqb_eq in E. subst c. destruct H. now left.
  - rewrite IH; [reflexivity|]. intros C. apply H. now right.
Qed.

Lemma split_lines_oneLine s : forall l, In l (split NL s) -> oneLine l.
Proof.
  unfold oneLine. induction s as [|c r IH]; intros l Hl; cbn [split] in Hl.
  - destruct Hl as [<-|[]]. intros [].
  - destruct (c =? NL)%N eqn:E.
    + destruct Hl as [<-|Hl]; [intros []|now apply IH].
    + destruct (split NL r) as [|h t] eqn:S.
      * destruct Hl as [<-|[]]. intros [C|[]].
        subst c. now rewrite N.eqb_refl in E.
      * destruct Hl as [<-|Hl].
        -- intros [C|C].
           ++ subst c. now rewrite N.eqb_refl in E.
           ++ apply (IH h); [now left|exact C].
        -- apply IH. now right.
Qed.

(** Splitting distributes over a line feed. *)
Lemma split_app_NL a : forall b,
  split NL (a ++ NL :: b) = split NL a ++ split NL b.
Proof.
  induction a as [|c a IH]; intros b.
  - reflexivity.
  - cbn [app split]. rewrite IH.
    destruct (c =? NL)%N; [reflexivity|].
    destruct (split NL a) as [|h t] eqn:S; [|reflexivity].
    now destruct (split_nonempty NL a).
Qed.

(** Joining lines and splitting again gives the lines back. *)
Lemma split_join ls :
  ls <> [] -> Forall oneLine ls -> split NL (join [NL] ls) = ls.
Proof.
  induction ls as [|x ls IH]; intros Hne F; [congruence|].
  inversion F as [|? ? Hx Hls]; subst.
  destruct ls as [|y ls].
  - now apply split_oneLine.
  - change (join [NL] (x :: y :: ls)) with (x ++ NL :: join [NL] (y :: ls)).
    rewrite split_app_NL, (split_oneLine Hx), IH; [reflexivity|discriminate|exact Hls].
Qed.

End Lines.

(* ================================================================== *)
(** ** What a capture holds *)
(* ================================================================== *)

Module Captures.

Import RegexFacts.

Lemma getCap_filter n (f : nat * jsstring -> bool) cs :
  (forall s, f (n, s) = true) ->
  getCap n (filter f cs) = getCap n cs.
Proof.
  intros Hf. induction cs as [|[m s] cs IH]; [reflexivity|].
  simpl. destruct (Nat.eqb m n) eqn:E.
  - apply Nat.eqb_eq in E. subst m. rewrite Hf. simpl. now rewrite Nat.eqb_refl.
  - destruct (f (m, s)); simpl; [now rewrite E|exact IH].
Qed.

Lemma getCap_clearCaps n gs st :
  ~ In n gs -> getCap n (caps (clearCaps gs st)) = getCap n (caps st).
Proof.
  intros Hn. unfold clearCaps. simpl. apply getCap_filter.
  intros s. simpl. apply negb_true_iff.
  destruct (existsb (Nat.eqb n) gs) eqn:E; [|reflexivity].
  apply existsb_exists in E. destruct E as (x & Hx & E).
  apply Nat.eqb_eq in E. subst x. contradiction.
Qed.

(** A pattern leaves alone the captures of the groups it does not have. *)
Lemma Matches_getCap_other n r st st' :
  Matches r st st' -> ~ In n (groups r) ->
  getCap n (caps st') = getCap n (caps st).
Proof.
  induction 1 as [st|p c bef rest cs Hp|a b st1 st2 st3 _ IH1 _ IH2
                  |a b st st' _ IH|a b st st' _ IH|a st
                  |a st st1 st2 _ IH1 Hlt _ IH2|m a st st' _ IH|m st|st];
    simpl; intros Hn; try reflexivity.
  - rewrite IH2, IH1; auto; intros C; apply Hn, in_or_app; auto.
  - apply IH. intros C. apply Hn, in_or_app. auto.
  - apply IH. intros C. apply Hn, in_or_app. auto.
  - rewrite (IH2 Hn), (IH1 Hn). now apply getCap_clearCaps.
  - destruct (Nat.eqb m n) eqn:E.
    + apply Nat.eqb_eq in E. subst m. destruct Hn. now left.
    + apply IH. intros C. apply Hn. now right.
Qed.

(** A group without anchors captures the string it has matched. *)
Lemma Matches_group_cap n g st st' :
  Matches (Group n g) st st' -> anchorFree g = true ->
  exists w, Lang g w /\ getCap n (caps st') = Some w.
Proof.
  intros M Haf. inversion M as [| | | | | | |m a s0 s1 Mg| |]; subst.
  destruct (Matches_Lang Mg Haf) as (w & L & A & B).
  exists w. split; [exact L|].
  simpl. rewrite Nat.eqb_refl. f_equal.
  rewrite B, length_app, length_rev.
  replace (length w + length (before st) - length (before st)) with (length w)
    by lia.
  rewrite <- (length_rev w), firstn_app, Nat.sub_diag, firstn_all.
  simpl. rewrite app_nil_r. apply rev_involutive.
Qed.

(** In a sequence, a group that no later piece resets keeps its capture. *)
Lemma Matches_seqs_capture pre n g post st st' :
  Matches (seqs (pre ++ Group n g :: post)) st st' ->
  anchorFree g = true -> ~ In n (groups (seqs post)) ->
  exists w, Lang g w /\ getCap n (caps st') = Some w.
Proof.
  intros M Haf Hn.
  apply Matches_seqs_app in M. destruct M as (mid & _ & M).
  simpl in M. apply Matches_seq_inv in M. destruct M as (m2 & Mg & Mp).
  destruct (Matches_group_cap Mg Haf) as (w & L & C).
  exists w. split; [exact L|].
  now rewrite (Matches_getCap_other n Mp Hn).
Qed.

(** Every element of the list built by [execAll] is the capture of a match
    of the pattern somewhere in the text. *)
Lemma execAll_In r n x : forall fuel bef aft,
  In x (execAll r n fuel bef aft) ->
  exists bef' aft' st',
    Matches r (MState bef' aft' []) st' /\
    x = match getCap n (caps st') with Some s => s | None => [] end.
Proof.
  induction fuel as [|f IH]; intros bef aft H; simpl in H; [destruct H|].
  destruct (search r bef aft) as [m|] eqn:S; [|destruct H].
  destruct H as [<-|H]; [|now apply IH in H].
  apply search_found in S.
  destruct S as (pre & post & st' & _ & R & _ & _ & Hc).
  apply rmatch_sound in R. destruct R as (st1 & M & E). injection E as ->.
  exists (rev pre ++ bef), post, st'. split; [exact M|]. now rewrite Hc.
Qed.

End Captures.

(* ================================================================== *)
(** ** Imports: what is extracted and what a merge keeps *)
(* ================================================================== *)

Module ImportShape.

Import RegexFacts Captures Lines ImportMerge.

Definition wordOrDot (c : N) : bool := is_word c || (c =? 46)%N.

(** The text of a directive: word units and dots, then possibly [.*]. *)
Definition directiveShape (x : jsstring) : Prop :=
  exists c r (star : bool),
    x = c :: r ++ (if star then [46%N; 42%N] else []) /\
    wordOrDot c = true /\ forallb wordOrDot r = true.

Definition importName : regex :=
  Seq (Plus (Chr (fun c => is_word c || (c =? 46)%N))) (Opt (str ".*")).

Lemma Lang_importName x : Lang importName x -> directiveShape x.
Proof.
  unfold importName, Plus. intros L.
  apply Lang_seq_inv in L. destruct L as (u & v & -> & Lu & Lv).
  apply Lang_seq_inv in Lu. destruct Lu as (u1 & u2 & -> & L1 & L2).
  apply Lang_chr_inv in L1. destruct L1 as (c & -> & Hc).
  apply Lang_star_chr in L2.
  apply Lang_alt_inv in Lv. destruct Lv as [Lv|Lv].
  - simpl in Lv.
    apply Lang_seq_inv in Lv. destruct Lv as (d & v1 & -> & Ld & Lv).
    apply Lang_seq_inv in Lv. destruct Lv as (s & v2 & -> & Ls & Lv).
    apply Lang_eps_inv in Lv. subst v2.
    apply Lang_chr_inv in Ld. destruct Ld as (d' & -> & Hd).
    apply Lang_chr_inv in Ls. destruct Ls as (s' & -> & Hs).
    apply N.eqb_eq in Hd, Hs. subst d' s'.
    exists c, u2, true. repeat split; auto.
  - apply Lang_eps_inv in Lv. subst v.
    exists c, u2, false. repeat split; auto.
Qed.

Lemma extractImports_directiveShape (sourceCode x : jsstring) :
  In x (extractImports sourceCode) -> directiveShape x.
Proof.
  unfold extractImports. intros H.
  apply execAll_In in H. destruct H as (bef & aft & st' & M & ->).
  change importRegex
    with (seqs ([Bol true; Star ws; str "import"; Plus ws]
                  ++ Group 1 importName :: [Star ws; chr ";"])) in M.
  apply Matches_seqs_capture in M.
  - destruct M as (w & L & ->). now apply Lang_importName.
  - reflexivity.
  - simpl. intros [].
Qed.

Definition directiveUnit (c : N) : bool := wordOrDot c || (c =? 42)%N.

(** X1: every directive returned by [extractImports] is a non-empty run of
    word units and dots, possibly followed by [.*]; it holds no blank, no
    line feed and no semicolon. *)
Theorem extractImports_shape (sourceCode x : jsstring) :
  In x (extractImports sourceCode) ->
  directiveShape x /\ x <> [] /\ forallb directiveUnit x = true /\
  ~ In NL x /\ ~ In 59%N x /\ forallb (fun c => negb (is_space c)) x = true.
Proof.
  intros H. apply extractImports_directiveShape in H.
  assert (U : forallb directiveUnit x = true).
  { destruct H as (c & r & star & -> & Hc & Hr). simpl.
    unfold directiveUnit at 1. rewrite Hc. simpl.
    rewrite forallb_app. apply andb_true_iff. split.
    - rewrite forallb_forall in *. intros d Hd.
      unfold directiveUnit. now rewrite (Hr d Hd).
    - now destruct star. }
  assert (P : forall d, directiveUnit d = true ->
                        d <> NL /\ d <> 59%N /\ is_space d = false).
  { intros d Hd. unfold directiveUnit, wordOrDot, is_word in Hd.
    unfold is_lower, is_upper, is_digit in Hd.
    unfold is_space, is_line_terminator, NL.
    repeat (apply orb_true_iff in Hd; destruct Hd as [Hd|Hd]);
      rewrite ?andb_true_iff, ?N.leb_le, ?N.eqb_eq in Hd;
      (split; [lia|split; [lia|]]);
      repeat (apply orb_false_iff; split);
      rewrite ?andb_false_iff, ?N.leb_gt, ?N.eqb_neq; lia. }
  split; [exact H|]. split; [|split; [exact U|]].
  - destruct H as (c & r & star & -> & _). discriminate.
  - rewrite forallb_forall in U. repeat split.
    + intros C. now destruct (P _ (U _ C)).
    + intros C. now destruct (P _ (U _ C)) as (_ & Q & _).
    + apply forallb_forall. intros d Hd. apply negb_true_iff.
      now destruct (P _ (U _ Hd)) as (_ & _ & Q).
Qed.

Lemma extractImports_shape_witness :
  In (lit "java.util.*") (extractImports (lit "import java.util.*;")) /\
  directiveShape (lit "java.util.*").
Proof.
  assert (H : In (lit "java.util.*") (extractImports (lit "import java.util.*;"))).
  { assert (E : extractImports (lit "import java.util.*;") = [lit "java.util.*"])
      by (vm_compute; reflexivity).
    rewrite E. now left. }
  split; [exact H|]. exact (proj1 (extractImports_shape _ _ H)).
Defined.

Lemma directiveShape_oneLine x : directiveShape x -> oneLine (importLine x).
Proof.
  intros (c & r & star & -> & Hc & Hr). unfold oneLine, importLine.
  assert (W : forall d, wordOrDot d = true -> d <> NL).
  { intros d Hd ->. vm_compute in Hd. discriminate Hd. }
  intros Hin.
  apply in_app_or in Hin. destruct Hin as [Hin|Hin].
  { vm_compute in Hin. intuition discriminate. }
  apply in_app_or in Hin. destruct Hin as [Hin|Hin].
  - destruct Hin as [E|Hin]; [now apply (W c)|].
    apply in_app_or in Hin. destruct Hin as [Hin|Hin].
    + rewrite forallb_forall in Hr. now apply (W NL (Hr _ Hin)).
    + destruct star; simpl in Hin; intuition discriminate.
  - vm_compute in Hin. intuition discriminate.
Qed.

(** X2: a merge keeps every line of the existing text, in order, and adds
    one line [import X;] for each directive it inserts, all in one place. *)
Theorem mergeImports_keeps_lines (existingCode newCode : jsstring) :
  exists k,
    k <= length (split NL existingCode) /\
    split NL (mergeImports existingCode newCode)
    = firstn k (split NL existingCode)
        ++ map importLine (importsToAdd existingCode newCode)
        ++ skipn k (split NL existingCode).
Proof.
  unfold mergeImports.
  destruct (importsToAdd existingCode newCode) as [|x xs] eqn:E.
  - exists 0. split; [lia|reflexivity].
  - set (lines := split NL existingCode).
    set (k := findInsertIndex 0 lines 0).
    exists (Nat.min k (length lines)). split; [lia|].
    assert (Hf : firstn k lines = firstn (Nat.min k (length lines)) lines).
    { destruct (Nat.le_ge_cases k (length lines)) as [H|H].
      - now rewrite Nat.min_l.
      - rewrite Nat.min_r by exact H. now rewrite !firstn_all2 by lia. }
    assert (Hs : skipn k lines = skipn (Nat.min k (length lines)) lines).
    { destruct (Nat.le_ge_cases k (length lines)) as [H|H].
      - now rewrite Nat.min_l.
      - rewrite Nat.min_r by exact H. now rewrite !skipn_all2 by lia. }
    rewrite <- Hf, <- Hs.
    apply split_join.
    + intros C. apply app_eq_nil in C. destruct C as [_ C].
      apply app_eq_nil in C. destruct C as [C _]. discriminate C.
    + apply Forall_app. split; [|apply Forall_app; split].
      * apply Forall_forall. intros l Hl.
        apply (split_lines_oneLine existingCode).
        rewrite <- (firstn_skipn k). apply in_or_app. now left.
      * apply Forall_forall. intros l Hl.
        apply in_map_iff in Hl. destruct Hl as (imp & <- & Himp).
        apply directiveShape_oneLine.
        apply (extractImports_directiveShape newCode).
        assert (Hin : In imp (importsToAdd existingCode newCode))
          by (rewrite E; exact Himp).
        now apply importsToAdd_In in Hin.
      * apply Forall_forall. intros l Hl.
        apply (split_lines_oneLine existingCode).
        rewrite <- (firstn_skipn k). apply in_or_app. now right.
Qed.

End ImportShape.

(* ================================================================== *)
(** ** The fields of a signature *)
(* ================================================================== *)

Module Signatures.

Import RegexFacts Captures Lines Scanner.

Lemma exec_Matches r s m :
  exec r s = Some m ->
  exists bef aft st', Matches r (MState bef aft []) st' /\ mcaps m = caps st'.
Proof.
  unfold exec. intros H. apply search_found in H.
  destruct H as (pre & post & st' & _ & R & _ & _ & Hc).
  apply rmatch_sound in R. destruct R as (st1 & M & E). injection E as ->.
  now exists (rev pre ++ []), post, st'.
Qed.

Lemma Matches_seqs_split pre x post st st' :
  Matches (seqs (pre ++ x :: post)) st st' ->
  exists m1 m2,
    Matches (seqs pre) st m1 /\ Matches x m1 m2 /\ Matches (seqs post) m2 st'.
Proof.
  intros M. apply Matches_seqs_app in M. destruct M as (m1 & M1 & M).
  simpl in M. apply Matches_seq_inv in M. destruct M as (m2 & Mx & Mp).
  now exists m1, m2.
Qed.

Lemma Lang_plus_chr p w :
  Lang (Plus (Chr p)) w -> w <> [] /\ forallb p w = true.
Proof.
  unfold Plus. intros L.
  apply Lang_seq_inv in L. destruct L as (u & v & -> & Lu & Lv).
  apply Lang_chr_inv in Lu. destruct Lu as (c & -> & Hc).
  apply Lang_star_chr in Lv. split; [discriminate|].
  simpl. now rewrite Hc, Lv.
Qed.

Definition returnTypePattern : regex :=
  seqs [ Plus word;
         Opt (seqs [chr "<"; Plus (notchr ">"); chr ">"]);
         Opt (str "[]") ].

(** The pieces of [methodRegex] around its groups 2, 3 and 4. *)
Lemma methodRegex_groups st st' :
  Matches methodRegex st st' ->
  exists rt nm ps,
    getCap 2 (caps st') = Some rt /\ Lang returnTypePattern rt /\
    getCap 3 (caps st') = Some nm /\ Lang (Plus word) nm /\
    getCap 4 (caps st') = Some ps /\ Lang (Star (notchr ")")) ps.
Proof.
  intros M.
  set (modifier := Star (Group 1
                 (Seq (alts [str "public"; str "private"; str "protected";
                             str "static"; str "final"; str "abstract";
                             str "synchronized"; str "native"; str "strictfp"])
                      (Plus ws)))).
  set (tail := [ Star ws;
         Opt (seqs [ str "throws"; Plus ws;
                     Plus (Chr (fun c => is_word c || is_space c || (c =? 44)%N)) ]);
         Star ws; Opt (chr "{") ]).
  assert (M2 := M). assert (M3 := M). assert (M4 := M).
  change methodRegex
    with (seqs ([Bol false; Star ws; modifier]
                  ++ Group 2 returnTypePattern
                  :: [Plus ws; Group 3 (Plus word); Star ws; chr "(";
                      Group 4 (Star (notchr ")")); chr ")"] ++ tail)) in M2.
  change methodRegex
    with (seqs ([Bol false; Star ws; modifier; Group 2 returnTypePattern; Plus ws]
                  ++ Group 3 (Plus word)
                  :: [Star ws; chr "("; Group 4 (Star (notchr ")")); chr ")"]
                  ++ tail)) in M3.
  change methodRegex
    with (seqs ([Bol false; Star ws; modifier; Group 2 returnTypePattern; Plus ws;
                 Group 3 (Plus word); Star ws; chr "("]
                  ++ Group 4 (Star (notchr ")")) :: chr ")" :: tail)) in M4.
  apply Matches_seqs_capture in M2;
    [|reflexivity|simpl; intros [C|[C|[]]]; discriminate C].
  apply Matches_seqs_capture in M3;
    [|reflexivity|simpl; intros [C|[]]; discriminate C].
  apply Matches_seqs_capture in M4; [|reflexivity|simpl; intros []].
  destruct M2 as (rt & L2 & C2). destruct M3 as (nm & L3 & C3).
  destruct M4 as (ps & L4 & C4).
  now exists rt, nm, ps.
Qed.

Lemma In_dropWhile p s c : In c (dropWhile p s) -> In c s.
Proof.
  induction s as [|a s IH]; simpl; [easy|].
  destruct (p a); [right; auto|easy].
Qed.

Lemma In_trim s c : In c (trim s) -> In c s.
Proof.
  unfold trim. intros H. apply in_rev in H.
  apply In_dropWhile in H. apply in_rev in H. now apply In_dropWhile in H.
Qed.

(** X3: every signature returned by [extractMethods] has a non-empty name
    made of word units only, a result type that starts with a word unit,
    a parameter text without closing parenthesis, and a signature text
    that is the trimmed concatenation of its modifiers, result type, name
    and parameters. *)
Theorem extractMethods_fields (sourceCode : jsstring) (m : JavaMethod) :
  In m (extractMethods sourceCode) ->
  name m <> [] /\ forallb is_word (name m) = true /\
  (exists c r, returnType m = c :: r /\ is_word c = true) /\
  ~ In 41%N (parameters m) /\
  signature m
  = trim (join (lit " ") (modifiers m) ++ lit " " ++ returnType m ++ lit " "
            ++ name m ++ lit "(" ++ parameters m ++ lit ")").
Proof.
  intros Hm. apply origin_scan in Hm.
  destruct Hm as (i & line & mt & _ & _ & He & Hrec & _).
  apply exec_Matches in He. destruct He as (bef & aft & st' & M & Hc).
  apply methodRegex_groups in M.
  destruct M as (rt & nm & ps & C2 & L2 & C3 & L3 & C4 & L4).
  rewrite Hrec. unfold methodOfMatch, group. rewrite Hc, C2, C3, C4. simpl.
  apply Lang_plus_chr in L3. destruct L3 as [N1 N2].
  split; [exact N1|]. split; [exact N2|]. split; [|split; [|reflexivity]].
  - unfold returnTypePattern in L2. simpl in L2.
    apply Lang_seq_inv in L2. destruct L2 as (u & v & -> & Lu & _).
    apply Lang_plus_chr in Lu. destruct Lu as [U1 U2].
    destruct u as [|c u]; [congruence|].
    exists c, (u ++ v). split; [reflexivity|].
    simpl in U2. now apply andb_true_iff in U2.
  - intros C. apply In_trim in C.
    apply Lang_star_chr in L4. rewrite forallb_forall in L4.
    specialize (L4 _ C). vm_compute in L4. discriminate L4.
Qed.

Lemma extractMethods_fields_witness :
  exists m, In m (extractMethods calculatorSource) /\ name m = lit "add" /\
            forallb is_word (name m) = true.
Proof.
  assert (E : extractMethods calculatorSource
              = [ mkJavaMethod (lit "add") (lit "public int add(int a, int b)")
                    (lit "int") (lit "int a, int b") [lit "public"] 3 5 ])
    by (vm_compute; reflexivity).
  eexists. split; [rewrite E; left; reflexivity|].
  split; [reflexivity|].
  assert (H : In (mkJavaMethod (lit "add") (lit "public int add(int a, int b)")
                    (lit "int") (lit "int a, int b") [lit "public"] 3 5)
                 (extractMethods calculatorSource))
    by (rewrite E; left; reflexivity).
  exact (proj1 (proj2 (extractMethods_fields calculatorSource _ H))).
Defined.

(** *** Modifiers *)

Definition modifierKeywords : list jsstring :=
  [ lit "public"; lit "private"; lit "protected"; lit "static"; lit "final";
    lit "abstract"; lit "synchronized"; lit "native"; lit "strictfp" ].

Definition modifierPattern : regex :=
  Seq (alts [str "public"; str "private"; str "protected";
             str "static"; str "final"; str "abstract";
             str "synchronized"; str "native"; str "strictfp"])
      (Plus ws).

Lemma Lang_chars l : forall w,
  Lang (seqs (map (fun c => Chr (N.eqb c)) l)) w -> w = l.
Proof.
  induction l as [|c l IH]; intros w L; simpl in L.
  - now apply Lang_eps_inv in L.
  - apply Lang_seq_inv in L. destruct L as (u & v & -> & Lu & Lv).
    apply Lang_chr_inv in Lu. destruct Lu as (d & -> & Hd).
    apply N.eqb_eq in Hd. subst d. simpl. f_equal. now apply IH.
Qed.

Lemma Lang_str s w : Lang (str s) w -> w = lit s.
Proof. apply Lang_chars. Qed.

Lemma Lang_modifierPattern w :
  Lang modifierPattern w ->
  exists kw sp, w = kw ++ sp /\ In kw modifierKeywords /\
                sp <> [] /\ forallb is_space sp = true.
Proof.
  unfold modifierPattern. intros L.
  apply Lang_seq_inv in L. destruct L as (kw & sp & -> & Lk & Ls).
  apply Lang_plus_chr in Ls. destruct Ls as [S1 S2].
  exists kw, sp. split; [reflexivity|]. split; [|now split].
  simpl in Lk. unfold modifierKeywords.
  repeat (apply Lang_alt_inv in Lk;
          destruct Lk as [Lk|Lk];
          [|apply Lang_str in Lk; subst kw; simpl; tauto]).
  apply Lang_str in Lk. subst kw. simpl. tauto.
Qed.

(** After a repetition of a group, the capture is the one before the
    repetition or a string of the group. *)
Lemma Matches_star_group_cap n g r st st' :
  Matches r st st' -> r = Star (Group n g) -> anchorFree g = true ->
  getCap n (caps st') = getCap n (caps st) \/
  exists w, Lang g w /\ getCap n (caps st') = Some w.
Proof.
  induction 1 as [st|p c bef rest cs Hp|a b st1 st2 st3 _ IH1 _ IH2
                  |a b st st' _ IH|a b st st' _ IH|a st
                  |a st st1 st2 M1 _ Hlt _ IH2|m a st st' _ IH|m st|st];
    intros E Haf; try discriminate E.
  - now left.
  - injection E as ->. right.
    destruct (Matches_group_cap M1 Haf) as (w & L & C).
    destruct (IH2 eq_refl Haf) as [Same|New]; [|exact New].
    exists w. split; [exact L|]. now rewrite Same.
Qed.

Lemma dropWhile_all p a : forall b,
  forallb p a = true -> dropWhile p (a ++ b) = dropWhile p b.
Proof.
  induction a as [|c a IH]; intros b H; [reflexivity|].
  simpl in *. apply andb_true_iff in H. destruct H as [Hc Ha].
  rewrite Hc. now apply IH.
Qed.

Lemma dropWhile_none p s :
  forallb (fun c => negb (p c)) s = true -> forall t, dropWhile p (s ++ t) = s ++ t \/ s = [].
Proof.
  intros H t. destruct s as [|c s]; [now right|left].
  simpl in *. apply andb_true_iff in H. destruct H as [Hc _].
  apply negb_true_iff in Hc. now rewrite Hc.
Qed.

Lemma forallb_rev (p : N -> bool) l : forallb p (rev l) = forallb p l.
Proof.
  induction l as [|c l IH]; [reflexivity|].
  simpl. rewrite forallb_app, IH. simpl. rewrite andb_true_r. apply andb_comm.
Qed.

Lemma trim_keyword kw sp :
  kw <> [] -> forallb (fun c => negb (is_space c)) kw = true ->
  forallb is_space sp = true -> trim (kw ++ sp) = kw.
Proof.
  intros Hne Hk Hs. unfold trim.
  destruct (dropWhile_none is_space kw Hk sp) as [->|C]; [|congruence].
  rewrite rev_app_distr, dropWhile_all by now rewrite forallb_rev.
  assert (Hr : forallb (fun c => negb (is_space c)) (rev kw) = true)
    by now rewrite forallb_rev.
  destruct (dropWhile_none is_space (rev kw) Hr []) as [E|C].
  - rewrite app_nil_r in E. rewrite E. apply rev_involutive.
  - apply (f_equal (@rev N)) in C. rewrite rev_involutive in C. simpl in C.
    congruence.
Qed.

Lemma fields_word s : forall cur,
  forallb (fun c => negb (is_space c)) s = true ->
  fields cur s = [rev cur ++ s].
Proof.
  induction s as [|c s IH]; intros cur H; simpl.
  - now rewrite app_nil_r.
  - simpl in H. apply andb_true_iff in H. destruct H as [Hc Hs].
    apply negb_true_iff in Hc. rewrite Hc, (IH _ Hs). simpl.
    now rewrite <- app_assoc.
Qed.

Lemma splitBlank_keyword kw :
  kw <> [] -> forallb (fun c => negb (is_space c)) kw = true ->
  splitBlank kw = [kw].
Proof.
  intros Hne Hk. unfold splitBlank. rewrite (fields_word _ [] Hk). simpl.
  destruct kw; [congruence|reflexivity].
Qed.

Lemma modifierKeywords_plain kw :
  In kw modifierKeywords ->
  kw <> [] /\ forallb (fun c => negb (is_space c)) kw = true.
Proof.
  unfold modifierKeywords. simpl.
  intros [<-|[<-|[<-|[<-|[<-|[<-|[<-|[<-|[<-|[]]]]]]]]]];
    (split; [discriminate|vm_compute; reflexivity]).
Qed.

(** X4: a signature returned by [extractMethods] lists at most one modifier:
    group 1 of the method pattern sits inside a repetition, so only the last
    modifier keyword of the declaration is captured. *)
Theorem extractMethods_modifiers (sourceCode : jsstring) (m : JavaMethod) :
  In m (extractMethods sourceCode) ->
  modifiers m = [] \/
  exists kw, In kw modifierKeywords /\ modifiers m = [kw].
Proof.
  intros Hm. apply origin_scan in Hm.
  destruct Hm as (i & line & mt & _ & _ & He & Hrec & _).
  apply exec_Matches in He. destruct He as (bef & aft & st' & M & Hc).
  rewrite Hrec. unfold methodOfMatch, group. rewrite Hc. simpl.
  change methodRegex
    with (seqs ([Bol false; Star ws]
                  ++ Star (Group 1 modifierPattern)
                  :: [ Group 2 returnTypePattern; Plus ws; Group 3 (Plus word);
                       Star ws; chr "("; Group 4 (Star (notchr ")")); chr ")";
                       Star ws;
                       Opt (seqs [ str "throws"; Plus ws;
                                   Plus (Chr (fun c => is_word c || is_space c
                                                       || (c =? 44)%N)) ]);
                       Star ws; Opt (chr "{") ])) in M.
  apply Matches_seqs_split in M. destruct M as (m1 & m2 & Mpre & Mmod & Mpost).
  assert (C1 : getCap 1 (caps m1) = None).
  { rewrite (Matches_getCap_other 1 Mpre); [reflexivity|simpl; intros []]. }
  assert (C2 : getCap 1 (caps st') = getCap 1 (caps m2)).
  { apply (Matches_getCap_other 1 Mpost).
    simpl. intros [C|[C|[C|[]]]]; discriminate C. }
  rewrite C2.
  destruct (Matches_star_group_cap Mmod eq_refl eq_refl) as [Same|(w & L & C)].
  - rewrite Same, C1. now left.
  - rewrite C. right.
    apply Lang_modifierPattern in L.
    destruct L as (kw & sp & -> & Hk & _ & Hs).
    exists kw. split; [exact Hk|].
    destruct (modifierKeywords_plain Hk) as [K1 K2].
    simpl. rewrite (trim_keyword sp K1 K2 Hs).
    now apply splitBlank_keyword.
Qed.

(** A declaration with two modifiers. *)
Definition staticSource : jsstring :=
  join [NL] [ lit "class A {";
              lit "    public static int twice(int x) { return 2 * x; }";
              lit "}" ].

Lemma extractMethods_modifiers_witness :
  exists m, In m (extractMethods staticSource) /\ modifiers m = [lit "static"].
Proof.
  assert (E : extractMethods staticSource
              = [ mkJavaMethod (lit "twice") (lit "static int twice(int x)")
                    (lit "int") (lit "int x") [lit "static"] 2 2 ])
    by (vm_compute; reflexivity).
  assert (H : In (mkJavaMethod (lit "twice") (lit "static int twice(int x)")
                    (lit "int") (lit "int x") [lit "static"] 2 2)
                 (extractMethods staticSource))
    by (rewrite E; left; reflexivity).
  eexists. split; [exact H|].
  destruct (extractMethods_modifiers staticSource _ H) as [C|(kw & _ & C)];
    [discriminate C|reflexivity].
Defined.

End Signatures.

(* ================================================================== *)
(** ** More on the process runner and the test runs *)
(* ================================================================== *)

Module TestRuns.

Import RegexFacts Lines SidebarProvider.

(** *** Output collected by the runner *)

Definition isData (e : ChildEvent) : bool :=
  match e with StdoutData _ | StderrData _ => true | _ => false end.

Fixpoint stdoutOf (events : list ChildEvent) : jsstring :=
  match events with
  | [] => []
  | StdoutData d :: r => d ++ stdoutOf r
  | _ :: r => stdoutOf r
  end.

Fixpoint stderrOf (events : list ChildEvent) : jsstring :=
  match events with
  | [] => []
  | StderrData d :: r => d ++ stderrOf r
  | _ :: r => stderrOf r
  end.

Lemma fold_data events : forall r,
  forallb isData events = true ->
  fold_left handle events r
  = mkRunner (stdout r ++ stdoutOf events) (stderr r ++ stderrOf events)
             (promise r) (killed r).
Proof.
  induction events as [|e events IH]; intros r H; simpl.
  - rewrite !app_nil_r. now destruct r.
  - simpl in H. apply andb_true_iff in H. destruct H as [He Hr].
    rewrite (IH _ Hr).
    destruct e; try discriminate He; simpl; now rewrite <- ?app_assoc.
Qed.

(** X5: when only data events precede the close event, and the exit code is
    zero or something was written, the promise resolves with all stdout
    chunks in their order, one line feed, and all stderr chunks in their
    order: the interleaving of the two streams is not kept, and a silent
    successful run resolves with a single line feed. *)
Theorem executeCommand_collects (events : list ChildEvent) (code : option Z) :
  forallb isData events = true ->
  isZero code = true \/ stdoutOf events <> [] \/ stderrOf events <> [] ->
  _executeCommand (events ++ [CloseEvent code])
  = Some (Resolved (stdoutOf events ++ [NL] ++ stderrOf events)).
Proof.
  intros Hd Hc. unfold _executeCommand. rewrite run_snoc.
  unfold run. rewrite (fold_data _ spawned Hd). simpl.
  unfold onClose, settle. simpl.
  destruct (isZero code); simpl; [reflexivity|].
  destruct (stdoutOf events) as [|a so]; simpl; [|reflexivity].
  destruct (stderrOf events) as [|b se]; simpl; [|reflexivity].
  destruct Hc as [C|[C|C]]; congruence.
Qed.

Lemma executeCommand_collects_witness :
  _executeCommand [ StdoutData (lit "a"); StderrData (lit "x");
                    StdoutData (lit "b"); CloseEvent (Some 1%Z) ]
  = Some (Resolved (lit "ab" ++ [NL] ++ lit "x")) /\
  _executeCommand [CloseEvent (Some 0%Z)] = Some (Resolved [NL]).
Proof.
  split.
  - refine (executeCommand_collects
              [StdoutData (lit "a"); StderrData (lit "x"); StdoutData (lit "b")]
              (Some 1%Z) eq_refl _).
    right. left. discriminate.
  - exact (executeCommand_collects [] (Some 0%Z) eq_refl (or_introl eq_refl)).
Defined.

(** *** After the promise has settled *)

Lemma killed_stays (r : Runner) (e : ChildEvent) :
  killed r = true -> killed (handle r e) = true.
Proof.
  intros H. destruct e; simpl; auto;
    unfold onError, onClose, onTimeout, settle; simpl.
  - now destruct (promise r).
  - destruct (negb (isZero o) && isEmpty (stdout r) && isEmpty (stderr r));
      now destruct (promise r).
  - now destruct (promise r).
Qed.

Lemma fold_settled more : forall r s,
  promise r = Some s -> promise (fold_left handle more r) = Some s.
Proof.
  induction more as [|e more IH]; intros r s H; simpl; [exact H|].
  apply IH. now apply settled_stays.
Qed.

Lemma fold_killed more : forall r,
  killed r = true -> killed (fold_left handle more r) = true.
Proof.
  induction more as [|e more IH]; intros r H; simpl; [exact H|].
  apply IH. now apply killed_stays.
Qed.

Lemma timer_kills (r : Runner) : killed (handle r TimerFired) = true.
Proof. simpl. unfold onTimeout, settle. simpl. now destruct (promise r). Qed.

(** X6: once the promise has settled, no later event changes its value (a
    close after the timeout does not resolve it, an error after a close does
    not reject it); and the timer is never cleared: when it fires among the
    later events, [kill] is still called. *)
Theorem executeCommand_settles_once
  (events more : list ChildEvent) (s : Settled) :
  _executeCommand events = Some s ->
  _executeCommand (events ++ more) = Some s /\
  (In TimerFired more -> killed (run (events ++ more)) = true).
Proof.
  unfold _executeCommand, run. intros H. rewrite fold_left_app. split.
  - now apply fold_settled.
  - intros Hin. apply in_split in Hin. destruct Hin as (m1 & m2 & ->).
    rewrite fold_left_app. simpl. apply fold_killed, timer_kills.
Qed.

Lemma executeCommand_settles_once_witness :
  _executeCommand [StdoutData (lit "ok"); CloseEvent (Some 0%Z); TimerFired]
  = Some (Resolved (lit "ok" ++ [NL])) /\
  killed (run [StdoutData (lit "ok"); CloseEvent (Some 0%Z); TimerFired]) = true.
Proof.
  assert (H : _executeCommand [StdoutData (lit "ok"); CloseEvent (Some 0%Z)]
              = Some (Resolved (lit "ok" ++ [NL]))) by (vm_compute; reflexivity).
  destruct (executeCommand_settles_once
              [StdoutData (lit "ok"); CloseEvent (Some 0%Z)] [TimerFired] H)
    as [H1 H2].
  split; [exact H1|]. apply H2. now left.
Defined.

(** *** Names that pass validation *)

Definition nameUnit (c : N) : bool :=
  identPart c || (c =? 46)%N || (c =? 42)%N.

Lemma identStart_part c : identStart c = true -> identPart c = true.
Proof.
  unfold identStart, identPart. intros H.
  repeat (apply orb_true_iff in H; destruct H as [H|H]);
    rewrite H; rewrite ?orb_true_r; reflexivity.
Qed.

Lemma identPart_nameUnit r :
  forallb identPart r = true -> forallb nameUnit r = true.
Proof.
  induction r as [|c r IH]; simpl; [easy|].
  intros H. apply andb_true_iff in H. destruct H as [Hc Hr].
  unfold nameUnit at 1. now rewrite Hc, IH.
Qed.

Lemma identifier_nameUnit w : identifier w -> forallb nameUnit w = true.
Proof.
  intros (c & r & -> & Hc & Hr). simpl.
  unfold nameUnit at 1. rewrite (identStart_part c Hc). simpl.
  now apply identPart_nameUnit.
Qed.

(** X7: a name accepted by [_validateTestClassName] starts with a letter,
    underscore or dollar sign and holds nothing but letters, digits,
    underscores, dollar signs, dots and stars: no blank, quote, semicolon or
    hyphen, so it cannot be read as an option or as several words. *)
Theorem validateTestClassName_units (name : jsstring) :
  _validateTestClassName name = true ->
  (exists c r, name = c :: r /\ identStart c = true) /\
  forallb nameUnit name = true /\
  forallb (fun c => negb (is_space c)) name = true.
Proof.
  intros H. unfold _validateTestClassName in H.
  apply andb_true_iff in H. destruct H as [H _].
  apply test_validPattern in H.
  destruct H as (first & rest & star & Hf & Hr & ->).
  assert (U : forallb nameUnit
                (first ++ concat (map (cons 46%N) rest)
                   ++ (if star then [42%N] else [])) = true).
  { rewrite !forallb_app. rewrite (identifier_nameUnit Hf). simpl.
    apply andb_true_iff. split; [|now destruct star].
    clear -Hr. induction Hr as [|w ws Hw _ IH]; simpl; [reflexivity|].
    rewrite forallb_app, (identifier_nameUnit Hw), IH. reflexivity. }
  split; [|split; [exact U|]].
  - destruct Hf as (c & r & -> & Hc & _). now exists c, (r ++ concat (map (cons 46%N) rest)
                   ++ (if star then [42%N] else [])).
  - rewrite forallb_forall in *. intros c Hc. specialize (U c Hc).
    unfold nameUnit, identPart in U. unfold is_space, is_line_terminator.
    unfold is_lower, is_upper, is_digit in U.
    repeat (apply orb_true_iff in U; destruct U as [U|U]);
      rewrite ?andb_true_iff, ?N.leb_le, ?N.eqb_eq in U;
      apply negb_true_iff;
      repeat (apply orb_false_iff; split);
      rewrite ?andb_false_iff, ?N.leb_gt, ?N.eqb_neq; lia.
Qed.

Lemma validateTestClassName_units_witness :
  _validateTestClassName (lit "com.example.FooTest") = true /\
  forallb nameUnit (lit "com.example.FooTest") = true.
Proof.
  assert (H : _validateTestClassName (lit "com.example.FooTest") = true)
    by (vm_compute; reflexivity).
  split; [exact H|].
  exact (proj1 (proj2 (validateTestClassName_units _ H))).
Defined.

(** *** What a test run does *)

(** [_runAllTests]: as [_runTest], without a name to validate. *)
Definition _runAllTests (toLowerCase : jsstring -> jsstring)
  (env : Environment) : list Effect :=
  PostTestRunning ::
  match workspaceFolder env with
  | None => failWith (lit "No workspace folder found")
  | Some cwd =>
      let launch (command : jsstring) (args : list jsstring) :=
        Spawn command args cwd ::
        match execute env command args cwd with
        | Rejected e => failWith (errorMessage e)
        | Resolved result =>
            let success := _parseTestResult toLowerCase result (buildTool env) in
            [ PostTestResult success (_formatTestOutput toLowerCase result);
              if success then ShowInformation (lit "All tests passed!")
              else ShowWarning
                     (lit "Some tests failed. Check the results below.") ]
        end in
      match buildTool env with
      | Some gradle =>
          launch (if win32 env then lit "gradlew.bat" else lit "./gradlew")
                 [lit "test"; lit "--info"]
      | Some maven => launch (lit "mvn") [lit "test"]
      | None => failWith (lit "No Maven or Gradle build file found")
      end
  end.

Definition isReport (e : Effect) : bool :=
  match e with PostTestResult _ _ | PostTestError _ => true | _ => false end.

Definition isNotice (e : Effect) : bool :=
  match e with
  | ShowInformation _ | ShowWarning _ | ShowError _ => true
  | _ => false
  end.

(** The shape shared by all runs: the running message, at most one spawn,
    one report to the view, one notice to the user. *)
Definition wellReported (trace : list Effect) : Prop :=
  exists spawns report notice,
    trace = PostTestRunning :: spawns ++ [report; notice] /\
    isReport report = true /\ isNotice notice = true /\
    (spawns = [] \/ exists c a d, spawns = [Spawn c a d]).

Lemma wellReported_fail m : wellReported (PostTestRunning :: failWith m).
Proof.
  exists [], (PostTestError m), (ShowError (lit "Test execution failed: " ++ m)).
  repeat split; auto.
Qed.

Lemma wellReported_launch toLowerCase env c a d :
  wellReported
    (PostTestRunning :: Spawn c a d ::
       match execute env c a d with
       | Rejected e => failWith (errorMessage e)
       | Resolved result =>
           let success := _parseTestResult toLowerCase result (buildTool env) in
           [ PostTestResult success (_formatTestOutput toLowerCase result);
             if success then ShowInformation (lit "All tests passed!")
             else ShowWarning
                    (lit "Some tests failed. Check the results below.") ]
       end).
Proof.
  destruct (execute env c a d) as [result|e].
  - cbv zeta.
    exists [Spawn c a d],
      (PostTestResult (_parseTestResult toLowerCase result (buildTool env))
                      (_formatTestOutput toLowerCase result)),
      (if _parseTestResult toLowerCase result (buildTool env)
       then ShowInformation (lit "All tests passed!")
       else ShowWarning (lit "Some tests failed. Check the results below.")).
    repeat split; [now destruct (_parseTestResult _ _ _)|].
    right. now exists c, a, d.
  - exists [Spawn c a d], (PostTestError (errorMessage e)),
      (ShowError (lit "Test execution failed: " ++ errorMessage e)).
    repeat split. right. now exists c, a, d.
Qed.

(** X8: every run, of one test class or of all tests, tells the view that it
    is running, spawns at most one process, and then always sends exactly
    one report (a result or an error) followed by one notice to the user;
    the view is never left waiting. *)
Theorem runs_always_report
  (toLowerCase : jsstring -> jsstring) (env : Environment) (name : jsstring) :
  wellReported (_runTest toLowerCase env name) /\
  wellReported (_runAllTests toLowerCase env).
Proof.
  split.
  - unfold _runTest.
    destruct (negb (_validateTestClassName name)); [apply wellReported_fail|].
    destruct (workspaceFolder env) as [cwd|]; [|apply wellReported_fail].
    destruct (buildTool env) as [[|]|] eqn:B;
      [| |apply wellReported_fail].
    + pose proof (wellReported_launch toLowerCase env (lit "mvn")
                    [lit "test"; lit "-Dtest=" ++ name] cwd) as W.
      now rewrite B in W.
    + pose proof (wellReported_launch toLowerCase env
                    (if win32 env then lit "gradlew.bat" else lit "./gradlew")
                    [lit "test"; lit "--tests"; name; lit "--info"] cwd) as W.
      now rewrite B in W.
  - unfold _runAllTests.
    destruct (workspaceFolder env) as [cwd|]; [|apply wellReported_fail].
    destruct (buildTool env) as [[|]|] eqn:B;
      [| |apply wellReported_fail].
    + pose proof (wellReported_launch toLowerCase env (lit "mvn")
                    [lit "test"] cwd) as W.
      now rewrite B in W.
    + pose proof (wellReported_launch toLowerCase env
                    (if win32 env then lit "gradlew.bat" else lit "./gradlew")
                    [lit "test"; lit "--info"] cwd) as W.
      now rewrite B in W.
Qed.

(** X9: what [_runTest] can spawn.  A process is spawned only for a name that
    passed validation, in the workspace folder, and it is the Gradle wrapper
    with the arguments test, --tests, the name, --info, or Maven with the
    arguments test and -Dtest= followed by the name; the name is never split
    and never joined with the command. *)
Theorem runTest_spawns
  (toLowerCase : jsstring -> jsstring) (env : Environment)
  (name c : jsstring) (a : list jsstring) (d : jsstring) :
  In (Spawn c a d) (_runTest toLowerCase env name) ->
  _validateTestClassName name = true /\
  workspaceFolder env = Some d /\
  ((buildTool env = Some gradle /\
    c = (if win32 env then lit "gradlew.bat" else lit "./gradlew") /\
    a = [lit "test"; lit "--tests"; name; lit "--info"]) \/
   (buildTool env = Some maven /\ c = lit "mvn" /\
    a = [lit "test"; lit "-Dtest=" ++ name])).
Proof.
  unfold _runTest. intros [C|H]; [discriminate C|].
  assert (F : forall m, ~ In (Spawn c a d) (failWith m)).
  { intros m [C|[C|[]]]; discriminate C. }
  assert (L : forall c' a' d',
             In (Spawn c a d)
                (Spawn c' a' d' ::
                 match execute env c' a' d' with
                 | Rejected e => failWith (errorMessage e)
                 | Resolved result =>
                     let success :=
                       _parseTestResult toLowerCase result (buildTool env) in
                     [ PostTestResult success
                         (_formatTestOutput toLowerCase result);
                       if success then ShowInformation (lit "All tests passed!")
                       else ShowWarning
                              (lit "Some tests failed. Check the results below.") ]
                 end) ->
             c = c' /\ a = a' /\ d = d').
  { intros c' a' d' [E|E].
    - now injection E as -> -> ->.
    - exfalso. destruct (execute env c' a' d') as [result|e].
      + cbv zeta in E. destruct E as [C|[C|[]]]; [discriminate C|].
        destruct (_parseTestResult toLowerCase result (buildTool env));
          discriminate C.
      + now apply F in E. }
  destruct (_validateTestClassName name); simpl in H;
    [|now apply F in H].
  split; [reflexivity|].
  destruct (workspaceFolder env) as [cwd|]; [|now apply F in H].
  destruct (buildTool env) as [[|]|] eqn:B; [| |now apply F in H].
  - rewrite ?B in L. apply L in H. destruct H as (-> & -> & ->).
    split; [reflexivity|]. right. now repeat split.
  - rewrite ?B in L. apply L in H. destruct H as (-> & -> & ->).
    split; [reflexivity|]. left. now repeat split.
Qed.

Definition gradleEnv : Environment :=
  mkEnv (Some (lit "/work")) (Some gradle) false
        (fun _ _ _ => Resolved (lit "BUILD SUCCESSFUL")).

Lemma runTest_spawns_witness :
  In (Spawn (lit "./gradlew")
            [lit "test"; lit "--tests"; lit "FooTest"; lit "--info"]
            (lit "/work"))
     (_runTest asciiLower gradleEnv (lit "FooTest")) /\
  _validateTestClassName (lit "FooTest") = true.
Proof.
  assert (H : In (Spawn (lit "./gradlew")
                    [lit "test"; lit "--tests"; lit "FooTest"; lit "--info"]
                    (lit "/work"))
                 (_runTest asciiLower gradleEnv (lit "FooTest"))).
  { assert (E : _runTest asciiLower gradleEnv (lit "FooTest")
                = [ PostTestRunning;
                    Spawn (lit "./gradlew")
                      [lit "test"; lit "--tests"; lit "FooTest"; lit "--info"]
                      (lit "/work");
                    PostTestResult true (lit "BUILD SUCCESSFUL");
                    ShowInformation (lit "All tests passed!") ])
      by (vm_compute; reflexivity).
    rewrite E. right. left. reflexivity. }
  split; [exact H|].
  exact (proj1 (runTest_spawns H)).
Defined.

End TestRuns.

(* ================================================================== *)
(** ** The summary of a test run *)
(* ================================================================== *)

Module Summary.

Import Lines ImportMerge SidebarProvider.

Definition truncationMarker : jsstring := lit "... (truncated)".

Lemma join_snoc (l : list jsstring) (x : jsstring) :
  l <> [] -> join [NL] (l ++ [x]) = join [NL] l ++ [NL] ++ x.
Proof.
  induction l as [|a l IH]; intros H; [congruence|].
  destruct l as [|b l].
  - reflexivity.
  - change (join [NL] ((a :: b :: l) ++ [x]))
      with (a ++ [NL] ++ join [NL] ((b :: l) ++ [x])).
    rewrite IH by discriminate.
    change (join [NL] (a :: b :: l)) with (a ++ [NL] ++ join [NL] (b :: l)).
    now rewrite <- !app_assoc.
Qed.

Lemma filter_lines_oneLine (f : jsstring -> bool) output :
  Forall oneLine (filter f (split NL output)).
Proof.
  apply Forall_forall. intros l Hl. apply filter_In in Hl.
  now apply (split_lines_oneLine output).
Qed.

Lemma Forall_firstn (P : jsstring -> Prop) n l :
  Forall P l -> Forall P (firstn n l).
Proof.
  rewrite !Forall_forall. intros H x Hx. apply H.
  rewrite <- (firstn_skipn n l). apply in_or_app. now left.
Qed.

(** X10: the summary built by [_formatTestOutput].  With more than 30
    relevant lines it is the first 30 of them followed by the truncation
    marker, 31 lines in all; with at most 30 it is exactly the relevant
    lines, in their order; and when the relevant lines make up the empty
    string it is the first 1000 units of the raw output.  Outside the last
    case every line of the summary but the marker is a relevant line of the
    output. *)
Theorem formatTestOutput_lines
  (toLowerCase : jsstring -> jsstring) (output : jsstring) :
  let relevant := filter (relevantLine toLowerCase) (split NL output) in
  let summary := _formatTestOutput toLowerCase output in
  (30 < length relevant ->
   split NL summary = firstn 30 relevant ++ [truncationMarker] /\
   length (split NL summary) = 31) /\
  (length relevant <= 30 -> join [NL] relevant <> [] ->
   split NL summary = relevant) /\
  (length relevant <= 30 -> join [NL] relevant = [] ->
   summary = firstn 1000 output /\ length summary <= 1000).
Proof.
  intros relevant summary. unfold summary, _formatTestOutput.
  fold relevant.
  assert (F : Forall oneLine relevant) by apply filter_lines_oneLine.
  split; [|split].
  - intros H. apply Nat.ltb_lt in H. rewrite H.
    assert (Hne : firstn 30 relevant <> []).
    { apply Nat.ltb_lt in H. intros C.
      apply (f_equal (@length jsstring)) in C.
      rewrite length_firstn in C.
      change (length (@nil jsstring)) with 0 in C. lia. }
    rewrite <- (join_snoc (lit "... (truncated)") Hne).
    assert (S : split NL (join [NL] (firstn 30 relevant ++ [lit "... (truncated)"]))
                = firstn 30 relevant ++ [lit "... (truncated)"]).
    { apply split_join.
      - intros C. apply app_eq_nil in C. destruct C as [_ C]. discriminate C.
      - apply Forall_app. split; [now apply Forall_firstn|].
        constructor; [|constructor].
        unfold oneLine. vm_compute. intuition discriminate. }
    split; [exact S|].
    rewrite S, length_app, length_firstn. apply Nat.ltb_lt in H.
    change (length [lit "... (truncated)"]) with 1. lia.
  - intros H Hne.
    assert (B : (30 <? length relevant) = false) by (apply Nat.ltb_ge; lia).
    rewrite B.
    destruct (join [NL] relevant) as [|c r] eqn:J; [congruence|].
    rewrite <- J. apply split_join; [|exact F].
    intros C. rewrite C in J. discriminate J.
  - intros H He.
    assert (B : (30 <? length relevant) = false) by (apply Nat.ltb_ge; lia).
    rewrite B, He. split; [reflexivity|].
    rewrite length_firstn. lia.
Qed.

Definition shortOutput : jsstring :=
  join [NL] [lit "> Task :compileJava"; lit "noise"; lit "BUILD SUCCESSFUL in 3s"].

Lemma formatTestOutput_lines_witness :
  split NL (_formatTestOutput asciiLower shortOutput)
  = [lit "> Task :compileJava"; lit "BUILD SUCCESSFUL in 3s"].
Proof.
  assert (R : filter (relevantLine asciiLower) (split NL shortOutput)
              = [lit "> Task :compileJava"; lit "BUILD SUCCESSFUL in 3s"])
    by (vm_compute; reflexivity).
  rewrite <- R.
  refine (proj1 (proj2 (formatTestOutput_lines asciiLower shortOutput)) _ _).
  - rewrite R. simpl. lia.
  - rewrite R. discriminate.
Defined.

End Summary.

(* ================================================================== *)
(** ** Scanning a text that grows *)
(* ================================================================== *)

Module ScannerGrowth.

Import Lines Scanner.

Lemma scanLines_app a : forall b i st,
  scanLines i (a ++ b) st = scanLines (i + length a) b (scanLines i a st).
Proof.
  induction a as [|l a IH]; intros b i st; simpl.
  - now rewrite Nat.add_0_r.
  - rewrite IH. f_equal. lia.
Qed.

Lemma step_appends st i line :
  exists more, methods (step st i line) = methods st ++ more /\
               forall m, In m more -> endLine m = S i.
Proof.
  destruct (step_transition st i line) as [| | cm bc | cm | mt bc | mt bc ];
    simpl.
  - exists []. split; [now rewrite app_nil_r|intros m []].
  - exists []. split; [now rewrite app_nil_r|intros m []].
  - exists []. split; [now rewrite app_nil_r|intros m []].
  - exists [withEndLine cm (S i)]. split; [reflexivity|].
    now intros m [<-|[]].
  - exists []. split; [now rewrite app_nil_r|intros m []].
  - exists [withEndLine (methodOfMatch mt (S i)) (S i)]. split; [reflexivity|].
    now intros m [<-|[]].
Qed.

Lemma scanLines_appends lines : forall i st,
  exists more, methods (scanLines i lines st) = methods st ++ more /\
               forall m, In m more -> i < endLine m.
Proof.
  induction lines as [|l lines IH]; intros i st; simpl.
  - exists []. split; [now rewrite app_nil_r|intros m []].
  - destruct (step_appends st i l) as (m1 & E1 & H1).
    destruct (IH (S i) (step st i l)) as (m2 & E2 & H2).
    exists (m1 ++ m2). split.
    + now rewrite E2, E1, app_assoc.
    + intros m Hm. apply in_app_or in Hm. destruct Hm as [Hm|Hm].
      * rewrite (H1 m Hm). lia.
      * specialize (H2 m Hm). lia.
Qed.

(** X11: scanning is incremental.  When lines are added after a text, the
    signatures found in the text alone are the first ones found in the
    longer text, unchanged; every further signature ends on one of the
    added lines. *)
Theorem extractMethods_prefix (a b : jsstring) :
  exists more,
    extractMethods (a ++ NL :: b) = extractMethods a ++ more /\
    forall m, In m more -> length (split NL a) < endLine m.
Proof.
  unfold extractMethods, scanSource.
  rewrite split_app_NL, scanLines_app. simpl.
  apply scanLines_appends.
Qed.

End ScannerGrowth.

(* ================================================================== *)
(** ** javaParser.ts: test methods and class information *)
(* ================================================================== *)

Module TestMethods.

Import RegexFacts Captures Signatures.

(** "/^\s*(?:public|private|protected)?\s*void\s+(\w+)\s*\(/" *)
Definition testMethodRegex : regex :=
  seqs [ Bol false; Star ws; visibility; Star ws; str "void"; Plus ws;
         Group 1 (Plus word); Star ws; chr "(" ].

Definition isTestAnnotation (line : jsstring) : bool :=
  startsWith (trim line) (lit "@Test").

(** The loop of [extractTestMethods]: the names found so far and the flag
    [foundTestAnnotation]. *)
Fixpoint testMethodsLoop (lines : list jsstring) (found : bool)
  (testMethods : list jsstring) : list jsstring :=
  match lines with
  | [] => testMethods
  | line :: rest =>
      if isTestAnnotation line then testMethodsLoop rest true testMethods
      else if found then
        match exec testMethodRegex line with
        | Some m =>
            testMethodsLoop rest false
              (testMethods ++ [match group 1 m with Some s => s | None => [] end])
        | None => testMethodsLoop rest found testMethods
        end
      else testMethodsLoop rest found testMethods
  end.

Definition extractTestMethods (testCode : jsstring) : list jsstring :=
  testMethodsLoop (split NL testCode) false [].

Definition annotationCount (lines : list jsstring) : nat :=
  length (filter isTestAnnotation lines).

Lemma testMethodsLoop_count lines : forall found acc,
  length (testMethodsLoop lines found acc)
  <= length acc + annotationCount lines + (if found then 1 else 0).
Proof.
  unfold annotationCount.
  induction lines as [|l lines IH]; intros found acc; simpl; [lia|].
  destruct (isTestAnnotation l) eqn:A; simpl.
  - specialize (IH true acc). simpl in IH. destruct found; lia.
  - destruct found.
    + destruct (exec testMethodRegex l).
      * specialize (IH false (acc ++ [match group 1 m with
                                      | Some s => s | None => [] end])).
        rewrite length_app in IH. simpl in IH. lia.
      * apply (IH true acc).
    + apply (IH false acc).
Qed.

Lemma testMethodRegex_name line m :
  exec testMethodRegex line = Some m ->
  exists w, group 1 m = Some w /\ w <> [] /\ forallb is_word w = true.
Proof.
  intros H. apply exec_Matches in H. destruct H as (bef & aft & st' & M & Hc).
  change testMethodRegex
    with (seqs ([Bol false; Star ws; visibility; Star ws; str "void"; Plus ws]
                  ++ Group 1 (Plus word) :: [Star ws; chr "("])) in M.
  apply Matches_seqs_capture in M; [|reflexivity|simpl; intros []].
  destruct M as (w & L & C). apply Lang_plus_chr in L.
  exists w. unfold group. rewrite Hc. now split.
Qed.

Definition wordName (w : jsstring) : Prop :=
  w <> [] /\ forallb is_word w = true.

Lemma testMethodsLoop_names lines : forall found acc,
  Forall wordName acc -> Forall wordName (testMethodsLoop lines found acc).
Proof.
  induction lines as [|l lines IH]; intros found acc Hacc; simpl;
    [exact Hacc|].
  destruct (isTestAnnotation l); [now apply IH|].
  destruct found; [|now apply IH].
  destruct (exec testMethodRegex l) as [m|] eqn:E; [|now apply IH].
  apply IH. apply Forall_app. split; [exact Hacc|].
  destruct (testMethodRegex_name _ E) as (w & Hw & H1 & H2). rewrite Hw.
  constructor; [now split|constructor].
Qed.

(** X12: [extractTestMethods] returns at most one name per line that starts
    with @Test (none when there is no such line), and every name it returns
    is a non-empty run of word units. *)
Theorem extractTestMethods_bounded (testCode : jsstring) :
  length (extractTestMethods testCode) <= annotationCount (split NL testCode) /\
  (annotationCount (split NL testCode) = 0 -> extractTestMethods testCode = []) /\
  Forall wordName (extractTestMethods testCode).
Proof.
  unfold extractTestMethods.
  pose proof (testMethodsLoop_count (split NL testCode) false []) as C.
  simpl in C. split; [lia|]. split.
  - intros Z. rewrite Z in C.
    destruct (testMethodsLoop (split NL testCode) false []); [reflexivity|].
    simpl in C. lia.
  - apply testMethodsLoop_names. constructor.
Qed.

Definition sampleTestCode : jsstring :=
  join [NL] [ lit "class FooTest {"; lit "    @Test";
              lit "    public void addsNumbers() {"; lit "    }";
              lit "    void helper() {"; lit "    }"; lit "}" ].

Lemma extractTestMethods_bounded_witness :
  extractTestMethods sampleTestCode = [lit "addsNumbers"] /\
  annotationCount (split NL sampleTestCode) = 1 /\
  length (extractTestMethods sampleTestCode)
  <= annotationCount (split NL sampleTestCode).
Proof.
  split; [vm_compute; reflexivity|]. split; [vm_compute; reflexivity|].
  exact (proj1 (extractTestMethods_bounded sampleTestCode)).
Defined.

End TestMethods.

Module ClassInfo.

Import RegexFacts Captures Signatures ImportShape TestMethods.

(** "/^\s*package\s+([\w.]+)\s*;/m" *)
Definition packageRegex : regex :=
  seqs [ Bol true; Star ws; str "package"; Plus ws;
         Group 1 (Plus (Chr (fun c => is_word c || (c =? 46)%N)));
         Star ws; chr ";" ].

(** "/^\s*(?:public\s+)?(?:abstract\s+)?class\s+(\w+)/m" *)
Definition classInfoRegex : regex :=
  seqs [ Bol true; Star ws; Opt (Seq (str "public") (Plus ws));
         Opt (Seq (str "abstract") (Plus ws)); str "class"; Plus ws;
         Group 1 (Plus word) ].

Module JavaClass.

Record t : Type := make {
  name : jsstring;
  packageName : jsstring;
  methods : list JavaMethod
}.

End JavaClass.

Definition capture1 (o : option matched) : option jsstring :=
  match o with
  | Some m => Some (match group 1 m with Some s => s | None => [] end)
  | None => None
  end.

(** [extractClassInfo]; [None] is [null]. *)
Definition extractClassInfo (sourceCode : jsstring) : option JavaClass.t :=
  let packageName :=
    match capture1 (exec packageRegex sourceCode) with
    | Some s => s
    | None => []
    end in
  match capture1 (exec classInfoRegex sourceCode) with
  | None => None
  | Some className =>
      Some (JavaClass.make className packageName (extractMethods sourceCode))
  end.

(** X13: when [extractClassInfo] finds a class, its name is a non-empty run
    of word units, its package name is empty (no package declaration) or a
    non-empty run of word units and dots, and its methods are those of
    [extractMethods]. *)
Theorem extractClassInfo_fields (sourceCode : jsstring) (info : JavaClass.t) :
  extractClassInfo sourceCode = Some info ->
  wordName (JavaClass.name info) /\
  (JavaClass.packageName info = [] \/
   (JavaClass.packageName info <> [] /\
    forallb wordOrDot (JavaClass.packageName info) = true)) /\
  JavaClass.methods info = extractMethods sourceCode.
Proof.
  unfold extractClassInfo, capture1.
  destruct (exec classInfoRegex sourceCode) as [mc|] eqn:Ec; [|discriminate].
  intros [= <-]. simpl. split; [|split; [|reflexivity]].
  - apply exec_Matches in Ec. destruct Ec as (bef & aft & st' & M & Hc).
    change classInfoRegex
      with (seqs ([Bol true; Star ws; Opt (Seq (str "public") (Plus ws));
                   Opt (Seq (str "abstract") (Plus ws)); str "class"; Plus ws]
                    ++ Group 1 (Plus word) :: [])) in M.
    apply Matches_seqs_capture in M; [|reflexivity|simpl; intros []].
    destruct M as (w & L & C). unfold group. rewrite Hc, C.
    now apply Lang_plus_chr in L.
  - destruct (exec packageRegex sourceCode) as [mp|] eqn:Ep; [|now left].
    right. apply exec_Matches in Ep. destruct Ep as (bef & aft & st' & M & Hc).
    change packageRegex
      with (seqs ([Bol true; Star ws; str "package"; Plus ws]
                    ++ Group 1 (Plus (Chr wordOrDot))
                    :: [Star ws; chr ";"])) in M.
    apply Matches_seqs_capture in M; [|reflexivity|simpl; intros []].
    destruct M as (w & L & C). unfold group. rewrite Hc, C.
    now apply Lang_plus_chr in L.
Qed.

Lemma extractClassInfo_fields_witness :
  extractClassInfo calculatorSource
  = Some (JavaClass.make (lit "Calculator") (lit "com.example")
                         (extractMethods calculatorSource)) /\
  wordName (lit "Calculator").
Proof.
  assert (H : extractClassInfo calculatorSource
              = Some (JavaClass.make (lit "Calculator") (lit "com.example")
                                     (extractMethods calculatorSource)))
    by (vm_compute; reflexivity).
  split; [exact H|]. exact (proj1 (extractClassInfo_fields _ H)).
Defined.

End ClassInfo.

(* ================================================================== *)
(** ** FileManager: imports that name dependencies *)
(* ================================================================== *)

Module FileManager.

Import RegexFacts Captures Signatures ImportShape.

(** The pattern, flags g and m: "^\s*import\s+", an optional "static\s+",
    group 1 "[\w.]+", an optional "\.\*", then ";". *)
Definition importRegex : regex :=
  seqs [ Bol true; Star ws; str "import"; Plus ws;
         Opt (Seq (str "static") (Plus ws));
         Group 1 (Plus (Chr (fun c => is_word c || (c =? 46)%N)));
         Opt (str ".*"); chr ";" ].

Definition isStandard (importPath : jsstring) : bool :=
  startsWith importPath (lit "java.") || startsWith importPath (lit "javax.")
  || startsWith importPath (lit "org.junit")
  || startsWith importPath (lit "org.mockito").

Definition extractImports (content : jsstring) : list jsstring :=
  filter (fun importPath => negb (isStandard importPath))
         (execAll importRegex 1 (S (length content)) [] content).

(** The glob that [findDependencyFiles] looks up for an import:
    the dots become slashes, between "**/" and ".java". *)
Definition dependencyPath (importStatement : jsstring) : jsstring :=
  map (fun c => if (c =? 46)%N then 47%N else c) importStatement.

Definition dependencyPattern (importStatement : jsstring) : jsstring :=
  lit "**/" ++ dependencyPath importStatement ++ lit ".java".

Definition wordOrSlash (c : N) : bool := is_word c || (c =? 47)%N.

Lemma dependencyImport_progress bef aft m :
  search importRegex bef aft = Some m ->
  length bef < mend m /\ mend m <= length bef + length aft.
Proof.
  apply (search_progress
           (seqs [ Star ws; str "import"; Plus ws;
                   Opt (Seq (str "static") (Plus ws));
                   Group 1 (Plus (Chr (fun c => is_word c || (c =? 46)%N)));
                   Opt (str ".*"); chr ";" ])); [vm_compute; reflexivity|].
  vm_compute. lia.
Qed.

(** The extraction loop ends by itself: more fuel gives the same list. *)
Lemma extractImports_enough_fuel content fuel :
  length content < fuel ->
  filter (fun importPath => negb (isStandard importPath))
         (execAll importRegex 1 fuel [] content)
  = extractImports content.
Proof.
  intros H. unfold extractImports. f_equal.
  apply execAll_enough; [exact dependencyImport_progress|exact H|lia].
Qed.

(** X14: an import kept by [FileManager.extractImports] is a non-empty run of
    word units and dots that starts with none of java., javax., org.junit
    and org.mockito; the glob built from it is "**/", then word units and
    slashes only, then ".java", so no import can smuggle a wildcard or a
    brace into the search pattern. *)
Theorem extractImports_dependencies (content imp : jsstring) :
  In imp (extractImports content) ->
  imp <> [] /\ forallb wordOrDot imp = true /\ isStandard imp = false /\
  forallb wordOrSlash (dependencyPath imp) = true /\
  dependencyPattern imp = lit "**/" ++ dependencyPath imp ++ lit ".java".
Proof.
  unfold extractImports. intros H.
  apply filter_In in H. destruct H as [H S].
  apply negb_true_iff in S.
  apply execAll_In in H. destruct H as (bef & aft & st' & M & ->).
  change importRegex
    with (seqs ([Bol true; Star ws; str "import"; Plus ws;
                 Opt (Seq (str "static") (Plus ws))]
                  ++ Group 1 (Plus (Chr wordOrDot))
                  :: [Opt (str ".*"); chr ";"])) in M.
  apply Matches_seqs_capture in M; [|reflexivity|simpl; intros []].
  destruct M as (w & L & C). rewrite C in *.
  apply Lang_plus_chr in L. destruct L as [L1 L2].
  split; [exact L1|]. split; [exact L2|]. split; [exact S|].
  split; [|reflexivity].
  unfold dependencyPath. rewrite forallb_forall in *.
  intros c Hc. apply in_map_iff in Hc. destruct Hc as (d & <- & Hd).
  specialize (L2 d Hd). unfold wordOrDot in L2. unfold wordOrSlash.
  destruct (d =? 46)%N eqn:E; [reflexivity|].
  rewrite orb_false_r in L2. now rewrite L2.
Qed.

Definition sampleImports : jsstring :=
  join [NL] [ lit "import java.util.List;";
              lit "import com.example.service.UserService;";
              lit "import static org.junit.Assert.assertEquals;" ].

Lemma extractImports_dependencies_witness :
  extractImports sampleImports = [lit "com.example.service.UserService"] /\
  dependencyPattern (lit "com.example.service.UserService")
  = lit "**/com/example/service/UserService.java".
Proof.
  assert (E : extractImports sampleImports
              = [lit "com.example.service.UserService"])
    by (vm_compute; reflexivity).
  split; [exact E|].
  assert (H : In (lit "com.example.service.UserService")
                 (extractImports sampleImports)) by (rewrite E; now left).
  rewrite (proj2 (proj2 (proj2 (proj2 (extractImports_dependencies _ _ H))))).
  vm_compute. reflexivity.
Defined.

End FileManager.

(* ================================================================== *)
(** ** pathResolver.ts: which part of a path is rewritten *)
(* ================================================================== *)

Module Layouts.

Import SidebarProvider PathResolver.

Lemma startsWith_skipn s p :
  startsWith s p = true -> s = p ++ skipn (length p) s.
Proof.
  intros H. apply startsWith_prefix in H. destruct H as (r & ->).
  now rewrite skipn_app, skipn_all, Nat.sub_diag.
Qed.

Lemma replaceFirst_absent s p q :
  includes s p = false -> replaceFirst s p q = s.
Proof.
  induction s as [|c s IH]; cbn [includes replaceFirst]; intros H;
    apply orb_false_iff in H; destruct H as [H1 H2]; rewrite H1.
  - reflexivity.
  - now rewrite IH.
Qed.

(** [replaceFirst] rewrites the leftmost occurrence and nothing else. *)
Lemma replaceFirst_leftmost s p q :
  includes s p = true ->
  exists a b, s = a ++ p ++ b /\ replaceFirst s p q = a ++ q ++ b /\
              forall a' b', s = a' ++ p ++ b' -> length a <= length a'.
Proof.
  induction s as [|c s IH]; cbn [includes replaceFirst]; intros H.
  - rewrite orb_false_r in H. rewrite H.
    exists [], (skipn (length p) []). split; [now apply startsWith_skipn|].
    split; [reflexivity|]. intros; simpl; lia.
  - destruct (startsWith (c :: s) p) eqn:S.
    + exists [], (skipn (length p) (c :: s)).
      split; [now apply startsWith_skipn|].
      split; [reflexivity|]. intros; simpl; lia.
    + simpl in H. destruct (IH H) as (a & b & E & R & Hmin).
      exists (c :: a), b. split; [simpl; now rewrite <- E|].
      split; [simpl; now rewrite R|].
      intros a' b' E'. destruct a' as [|c' a'].
      * exfalso. simpl in E'.
        assert (startsWith (c :: s) p = true)
          by (apply startsWith_prefix; now exists b').
        congruence.
      * simpl in E'. injection E' as -> E'. simpl.
        specialize (Hmin a' b' E'). lia.
Qed.

(** The directory pairs, in the order in which they are tried. *)
Definition layoutRule (normalizedPath : jsstring)
  : option (jsstring * jsstring) :=
  if includes normalizedPath (lit "src/main/java")
  then Some (lit "src/main/java", lit "src/test/java")
  else if includes normalizedPath (lit "main/java")
  then Some (lit "main/java", lit "test/java")
  else if includes normalizedPath (lit "src/main/kotlin")
  then Some (lit "src/main/kotlin", lit "src/test/kotlin")
  else None.

Lemma length_normalizeSeparators s :
  length (normalizeSeparators s) = length s.
Proof. unfold normalizeSeparators. apply length_map. Qed.

(** X15: when a directory pair applies, [convertToTestPath] rewrites its
    leftmost occurrence in the path (with backslashes turned into slashes)
    and keeps every other unit: the result has the length of the input and
    differs from it only inside that occurrence.  The occurrence is found
    as a substring, whatever precedes it. *)
Theorem convertToTestPath_rewrites (relativePath p q : jsstring) :
  layoutRule (normalizeSeparators relativePath) = Some (p, q) ->
  exists a b,
    normalizeSeparators relativePath = a ++ p ++ b /\
    convertToTestPath relativePath = a ++ q ++ b /\
    (forall a' b', normalizeSeparators relativePath = a' ++ p ++ b' ->
                   length a <= length a') /\
    length (convertToTestPath relativePath) = length relativePath.
Proof.
  unfold layoutRule, convertToTestPath.
  set (n := normalizeSeparators relativePath).
  assert (G : forall p q, length p = length q -> includes n p = true ->
              exists a b, n = a ++ p ++ b /\ replaceFirst n p q = a ++ q ++ b /\
                (forall a' b', n = a' ++ p ++ b' -> length a <= length a') /\
                length (replaceFirst n p q) = length relativePath).
  { intros p0 q0 Hl Hi.
    destruct (replaceFirst_leftmost n p0 q0 Hi) as (a & b & E & R & M).
    exists a, b. repeat split; auto.
    rewrite R, <- (length_normalizeSeparators relativePath).
    fold n. rewrite E, !length_app. lia. }
  destruct (includes n (lit "src/main/java")) eqn:I1.
  - intros [= <- <-]. now apply G.
  - destruct (includes n (lit "main/java")) eqn:I2.
    + intros [= <- <-]. now apply G.
    + destruct (includes n (lit "src/main/kotlin")) eqn:I3; [|discriminate].
      intros [= <- <-]. now apply G.
Qed.

Lemma convertToTestPath_rewrites_witness :
  layoutRule (normalizeSeparators (lit "app\domain/java/Order.java"))
  = Some (lit "main/java", lit "test/java") /\
  convertToTestPath (lit "app\domain/java/Order.java")
  = lit "app/dotest/java/Order.java" /\
  length (convertToTestPath (lit "app\domain/java/Order.java"))
  = length (lit "app\domain/java/Order.java").
Proof.
  assert (H : layoutRule (normalizeSeparators (lit "app\domain/java/Order.java"))
              = Some (lit "main/java", lit "test/java"))
    by (vm_compute; reflexivity).
  split; [exact H|]. split; [vm_compute; reflexivity|].
  destruct (convertToTestPath_rewrites _ H) as (a & b & _ & _ & _ & L).
  exact L.
Defined.

End Layouts.

(* ================================================================== *)
(** ** Finding again what a merge has inserted *)
(* ================================================================== *)

Module Leftmost.

Import RegexFacts Captures.

Lemma search_here r bef aft st :
  rmatch r Some (MState bef aft []) = Some st ->
  search r bef aft = Some (Matched (length bef) (length (before st)) (caps st)).
Proof. intros H. destruct aft; simpl; now rewrite H. Qed.

Lemma search_next r bef c aft :
  rmatch r Some (MState bef (c :: aft) []) = None ->
  search r bef (c :: aft) = search r (c :: bef) aft.
Proof. intros H. simpl. now rewrite H. Qed.

(** [search] returns the leftmost position that has a match. *)
Lemma search_leftmost r : forall pre0 post0 bef,
  rmatch r Some (MState (rev pre0 ++ bef) post0 []) <> None ->
  exists m pre post st',
    pre0 ++ post0 = pre ++ post /\ length pre <= length pre0 /\
    search r bef (pre0 ++ post0) = Some m /\
    rmatch r Some (MState (rev pre ++ bef) post []) = Some st' /\
    mend m = length (before st') /\ mcaps m = caps st'.
Proof.
  induction pre0 as [|c pre0 IH]; intros post0 bef H.
  - simpl in *.
    destruct (rmatch r Some (MState bef post0 [])) as [st|] eqn:R; [|congruence].
    exists (Matched (length bef) (length (before st)) (caps st)), [], post0, st.
    repeat split; auto. now apply search_here.
  - destruct (rmatch r Some (MState bef ((c :: pre0) ++ post0) [])) as [st|] eqn:R.
    + exists (Matched (length bef) (length (before st)) (caps st)),
        [], ((c :: pre0) ++ post0), st.
      repeat split; auto; [simpl; lia|now apply search_here].
    + simpl in H. rewrite <- app_assoc in H. simpl in H.
      destruct (IH post0 (c :: bef) H) as (m & pre & post & st' & E & L & S & R' & He & Hc).
      exists m, (c :: pre), post, st'. repeat split; auto.
      * simpl. now rewrite E.
      * simpl. lia.
      * simpl app. rewrite search_next by exact R. exact S.
      * simpl. now rewrite <- app_assoc.
Qed.

Lemma app_eq_prefix (a : list N) : forall b c d,
  a ++ b = c ++ d -> length a <= length c ->
  exists l, c = a ++ l /\ b = l ++ d.
Proof.
  induction a as [|x a IH]; intros b c d E L.
  - exists c. now split.
  - destruct c as [|y c]; [simpl in L; lia|].
    simpl in E. injection E as -> E. simpl in L.
    destruct (IH b c d E) as (l & -> & ->); [lia|].
    now exists l.
Qed.

(** If a match at the end of [A] exists, and every match that starts inside
    [A] either stays inside [A] or captures [x], then the extraction loop,
    started before [A], returns [x]. *)
Lemma execAll_finds r n x :
  (forall bef aft m, search r bef aft = Some m ->
                     length bef < mend m /\ mend m <= length bef + length aft) ->
  forall fuel A bef rest,
    length (A ++ rest) < fuel ->
    (exists st', Matches r (MState (rev A ++ bef) rest []) st') ->
    (forall Q G st',
        A = Q ++ G ->
        Matches r (MState (rev Q ++ bef) (G ++ rest) []) st' ->
        length (before st') <= length bef + length A \/
        getCap n (caps st') = Some x) ->
    In x (execAll r n fuel bef (A ++ rest)).
Proof.
  intros Hprog. induction fuel as [|f IH]; intros A bef rest Hf Hp Hin; [lia|].
  destruct Hp as (stp & Mp).
  assert (Hne : rmatch r Some (MState (rev A ++ bef) rest []) <> None).
  { apply (@rmatch_complete r Some _ _ Mp). discriminate. }
  destruct (search_leftmost r A rest bef Hne)
    as (m & pre & post & st' & E & L & S & R & He & Hc).
  destruct (app_eq_prefix pre post A rest (eq_sym E) L) as (G & -> & ->).
  apply rmatch_sound in R. destruct R as (st1 & M & E1). injection E1 as ->.
  destruct (Hprog _ _ _ S) as [Lo Hi].
  simpl. rewrite S.
  destruct (Hin pre G st' eq_refl M) as [Short|Cap].
  - right. rewrite He.
    set (k := length (before st') - length bef).
    assert (Hk : k <= length (pre ++ G)) by (unfold k; lia).
    assert (Hk1 : 0 < k) by (unfold k; lia).
    rewrite firstn_app, skipn_app.
    replace (k - length (pre ++ G)) with 0 by lia.
    rewrite firstn_O, skipn_O, app_nil_r.
    apply IH.
    + rewrite length_app, length_skipn. rewrite length_app in Hf. lia.
    + exists stp. rewrite app_assoc, <- rev_app_distr, firstn_skipn. exact Mp.
    + intros Q' G' st2 E2 M2.
      rewrite app_assoc, <- rev_app_distr in M2.
      assert (E3 : pre ++ G = (firstn k (pre ++ G) ++ Q') ++ G').
      { rewrite <- app_assoc, <- E2. now rewrite firstn_skipn. }
      destruct (Hin _ _ _ E3 M2) as [B|C]; [left|now right].
      rewrite length_app, length_rev, length_firstn, length_skipn. lia.
  - left. now rewrite Hc, Cap.
Qed.

End Leftmost.

Module Roundtrip.

Import RegexFacts Captures Lines Signatures ImportShape ImportMerge Leftmost.
Import PathResolver.

(** *** Cutting strings *)

Definition stops (p : N -> bool) (r : jsstring) : Prop :=
  match r with
  | [] => True
  | c :: _ => p c = false
  end.

Lemma span_unique p (a1 : jsstring) : forall r1 a2 r2,
  a1 ++ r1 = a2 ++ r2 ->
  forallb p a1 = true -> forallb p a2 = true -> stops p r1 -> stops p r2 ->
  a1 = a2 /\ r1 = r2.
Proof.
  induction a1 as [|c a1 IH]; intros r1 a2 r2 E F1 F2 S1 S2.
  - destruct a2 as [|d a2]; [now split|].
    simpl in E. subst r1. simpl in S1, F2.
    apply andb_true_iff in F2. destruct F2 as [F2 _]. congruence.
  - destruct a2 as [|d a2].
    + simpl in E. subst r2. simpl in S2, F1.
      apply andb_true_iff in F1. destruct F1 as [F1 _]. congruence.
    + simpl in E. injection E as -> E. simpl in F1, F2.
      apply andb_true_iff in F1. apply andb_true_iff in F2.
      destruct F1 as [_ F1]. destruct F2 as [_ F2].
      destruct (IH r1 a2 r2 E F1 F2 S1 S2) as [-> ->]. now split.
Qed.

Lemma take_drop p s :
  s = takeWhile p s ++ dropWhile p s /\
  forallb p (takeWhile p s) = true /\ stops p (dropWhile p s).
Proof.
  induction s as [|c s (E & F & S)]; simpl; [now repeat split|].
  destruct (p c) eqn:Pc; simpl.
  - rewrite Pc. repeat split; auto. now rewrite <- E.
  - now repeat split.
Qed.

Lemma locate (a : N) (u : jsstring) : forall v g z,
  u ++ v = g ++ a :: z ->
  (exists u2, u = g ++ a :: u2 /\ z = u2 ++ v) \/
  (exists g2, g = u ++ g2 /\ v = g2 ++ a :: z).
Proof.
  intros v g z E.
  destruct (le_lt_dec (length u) (length g)) as [L|L].
  - right. now apply (app_eq_prefix u v g (a :: z)).
  - left.
    destruct (app_eq_prefix g (a :: z) u v (eq_sym E)) as (l & -> & E2); [lia|].
    destruct l as [|b l].
    + rewrite app_nil_r in L. lia.
    + simpl in E2. injection E2 as -> ->. now exists l.
Qed.

Lemma forallb_mid p (h : jsstring) a t :
  forallb p (h ++ a :: t) = true -> p a = true.
Proof.
  rewrite forallb_app. intros H. apply andb_true_iff in H.
  destruct H as [_ H]. cbn [forallb] in H.
  apply andb_true_iff in H. now destruct H.
Qed.

Lemma ends_with_NL (g1 g2 G0 : jsstring) :
  g1 ++ g2 = G0 ++ [NL] -> g2 <> [] -> exists g20, g2 = g20 ++ [NL].
Proof.
  intros E Hne. destruct (exists_last Hne) as (l & a & ->).
  rewrite app_assoc in E. apply app_inj_tail in E. destruct E as [_ ->].
  now exists l.
Qed.

(** *** Units of a directive *)

Lemma directiveUnit_plain d :
  directiveUnit d = true -> d <> NL /\ d <> 59%N /\ is_space d = false.
Proof.
  intros Hd. unfold directiveUnit, wordOrDot, is_word in Hd.
  unfold is_lower, is_upper, is_digit in Hd.
  unfold is_space, is_line_terminator, NL.
  repeat (apply orb_true_iff in Hd; destruct Hd as [Hd|Hd]);
    rewrite ?andb_true_iff, ?N.leb_le, ?N.eqb_eq in Hd;
    (split; [lia|split; [lia|]]);
    repeat (apply orb_false_iff; split);
    rewrite ?andb_false_iff, ?N.leb_gt, ?N.eqb_neq; lia.
Qed.

Lemma space_not_unit c : is_space c = true -> directiveUnit c = false.
Proof.
  intros H. destruct (directiveUnit c) eqn:D; [|reflexivity].
  destruct (directiveUnit_plain c D) as (_ & _ & S). congruence.
Qed.

Lemma directiveShape_units x :
  directiveShape x ->
  exists c r, x = c :: r /\ directiveUnit c = true /\
              forallb directiveUnit x = true.
Proof.
  intros (c & r & star & -> & Hc & Hr).
  exists c, (r ++ (if star then [46%N; 42%N] else [])).
  assert (Dc : directiveUnit c = true) by (unfold directiveUnit; now rewrite Hc).
  split; [reflexivity|]. split; [exact Dc|].
  simpl. rewrite Dc. simpl. rewrite forallb_app. apply andb_true_iff. split.
  - rewrite forallb_forall in *. intros d Hd.
    unfold directiveUnit. now rewrite (Hr d Hd).
  - now destruct star.
Qed.

Lemma stops_unit_spaces s3 R :
  forallb is_space s3 = true -> stops directiveUnit (s3 ++ 59%N :: R).
Proof.
  destruct s3 as [|c s3]; simpl; [reflexivity|].
  intros H. apply andb_true_iff in H. destruct H as [H _].
  now apply space_not_unit.
Qed.

Lemma stops_space_units x r :
  (exists c t, x = c :: t /\ directiveUnit c = true) ->
  stops is_space (x ++ r).
Proof.
  intros (c & t & -> & D). simpl. now destruct (directiveUnit_plain c D) as (_ & _ & S).
Qed.

Definition importWord : jsstring := lit "import".

(** *** A match that reaches an inserted line captures its directive *)

Lemma covering_match x nm s1 s2 s3 G B R :
  directiveShape x -> directiveShape nm ->
  forallb is_space s1 = true -> forallb is_space s2 = true -> s2 <> [] ->
  forallb is_space s3 = true ->
  (G = [] \/ exists G0, G = G0 ++ [NL]) ->
  G ++ importWord ++ [32%N] ++ x ++ [59%N] ++ B
  = s1 ++ importWord ++ s2 ++ nm ++ s3 ++ [59%N] ++ R ->
  length G < length (s1 ++ importWord ++ s2 ++ nm ++ s3 ++ [59%N]) ->
  nm = x.
Proof.
  intros Hx Hnm F1 F2 N2 F3 HG E Len.
  destruct (directiveShape_units Hx) as (cx & rx & Ex & Dcx & Ux).
  destruct (directiveShape_units Hnm) as (cn & rn & En & Dcn & Un).
  assert (Sx : forall r, stops is_space (x ++ r))
    by (intros r; apply stops_space_units; now exists cx, rx).
  assert (Sn : forall r, stops is_space (nm ++ r))
    by (intros r; apply stops_space_units; now exists cn, rn).
  assert (Ui : forallb directiveUnit importWord = true) by (vm_compute; reflexivity).
  destruct (take_drop is_space G) as (EG & FG & SG).
  set (g1 := takeWhile is_space G) in *. set (g2 := dropWhile is_space G) in *.
  rewrite EG, <- app_assoc in E.
  assert (S1 : stops is_space
                 (g2 ++ importWord ++ [32%N] ++ x ++ [59%N] ++ B)).
  { destruct g2 as [|c g2']; [vm_compute; reflexivity|exact SG]. }
  assert (S2 : stops is_space (importWord ++ s2 ++ nm ++ s3 ++ [59%N] ++ R))
    by (vm_compute; reflexivity).
  destruct (span_unique is_space _ _ _ _ E FG F1 S1 S2) as [Eg1 E2].
  destruct g2 as [|c g2'] eqn:Hg2.
  - (* the match starts on the inserted line *)
    rewrite app_nil_l in E2. apply app_inv_head in E2.
    assert (Sp : forallb is_space [32%N] = true) by (vm_compute; reflexivity).
    destruct (span_unique is_space [32%N] (x ++ [59%N] ++ B) s2
                (nm ++ s3 ++ [59%N] ++ R) E2 Sp F2 (Sx _) (Sn _)) as [_ E3].
    assert (Sa : stops directiveUnit ([59%N] ++ B)) by (vm_compute; reflexivity).
    destruct (span_unique directiveUnit x _ nm _ E3 Ux Un Sa
                (stops_unit_spaces s3 R F3)) as [E4 _].
    now symmetry.
  - (* the match starts on an earlier line: impossible *)
    exfalso.
    assert (Hne : c :: g2' <> []) by discriminate.
    destruct HG as [HG|(G0 & HG)].
    { rewrite HG in EG. destruct g1; discriminate EG. }
    rewrite HG in EG. symmetry in EG.
    destruct (@ends_with_NL g1 (c :: g2') G0 EG Hne) as (g20 & Eg2).
    rewrite Eg2 in E2.
    set (Y := importWord ++ [32%N] ++ x ++ [59%N] ++ B) in *.
    set (W' := importWord ++ s2 ++ nm ++ s3 ++ [59%N]).
    assert (E5 : (g20 ++ [NL]) ++ Y = W' ++ R).
    { unfold W'. rewrite E2. now rewrite <- !app_assoc. }
    assert (L5 : length (g20 ++ [NL]) < length W').
    { rewrite <- Eg2. unfold W'. rewrite HG in Len.
      rewrite <- EG, !length_app in Len. rewrite Eg1 in Len.
      rewrite !length_app. simpl in *. lia. }
    destruct (app_eq_prefix (g20 ++ [NL]) Y W' R E5) as (Z & EW & EY); [lia|].
    destruct Z as [|z Z'].
    { rewrite app_nil_r in EW. rewrite EW in L5. lia. }
    assert (Hz : z = 105%N).
    { unfold Y in EY. vm_compute in EY. now injection EY. }
    subst z.
    unfold W' in EW. rewrite <- app_assoc in EW.
    (* where the line feed sits in the matched text *)
    apply (@locate NL importWord _ g20 (105%N :: Z')) in EW. destruct EW as [(u2 & Ei & _)|(h2 & -> & EW)].
    { assert (In NL importWord) by (rewrite Ei; apply in_or_app; right; now left).
      vm_compute in H. intuition discriminate. }
    apply locate in EW. destruct EW as [(u2 & Es2 & EZ)|(h3 & -> & EW)].
    + destruct u2 as [|d u2].
      * simpl in EZ.
        assert (EY2 : Y = nm ++ s3 ++ [59%N] ++ R).
        { rewrite EY, EZ. now rewrite <- !app_assoc. }
        unfold Y in EY2.
        assert (Sb : stops directiveUnit ([32%N] ++ x ++ [59%N] ++ B))
          by (vm_compute; reflexivity).
        destruct (span_unique directiveUnit importWord _ nm _ EY2 Ui Un Sb
                    (stops_unit_spaces s3 R F3)) as [_ E6].
        assert (Sp : forallb is_space [32%N] = true) by (vm_compute; reflexivity).
        assert (Sc : stops is_space ([59%N] ++ R)) by (vm_compute; reflexivity).
        destruct (span_unique is_space [32%N] (x ++ [59%N] ++ B) s3
                    ([59%N] ++ R) E6 Sp F3 (Sx _) Sc) as [_ E7].
        rewrite Ex in E7. simpl in E7. injection E7 as E7 _.
        destruct (directiveUnit_plain cx Dcx) as (_ & C & _). congruence.
      * simpl in EZ. injection EZ as <- _.
        rewrite Es2 in F2.
        pose proof (@forallb_mid is_space (h2 ++ [NL]) 105%N u2) as C.
        rewrite <- app_assoc in C. specialize (C F2).
        vm_compute in C. discriminate C.
    + apply locate in EW. destruct EW as [(u2 & Enm & _)|(h4 & -> & EW)].
      { rewrite Enm in Un. apply forallb_mid in Un.
        vm_compute in Un. discriminate Un. }
      apply locate in EW. destruct EW as [(u2 & Es3 & EZ)|(h5 & -> & EW)].
      * destruct u2 as [|d u2]; simpl in EZ.
        -- injection EZ as C _. discriminate C.
        -- injection EZ as <- _.
           rewrite Es3 in F3.
           pose proof (@forallb_mid is_space (h4 ++ [NL]) 105%N u2) as C.
           rewrite <- app_assoc in C. specialize (C F3).
           vm_compute in C. discriminate C.
      * apply (f_equal (@length N)) in EW.
        rewrite length_app in EW. simpl in EW. lia.
Qed.

(** *** The text of a match of the import pattern *)

Lemma Matches_group_span n g st st' :
  Matches (Group n g) st st' -> anchorFree g = true ->
  exists w, Lang g w /\ getCap n (caps st') = Some w /\
            after st = w ++ after st' /\ before st' = rev w ++ before st.
Proof.
  intros M Haf. inversion M as [| | | | | | |m a s0 s1 Mg| |]; subst.
  destruct (Matches_Lang Mg Haf) as (w & L & A & B).
  exists w. split; [exact L|]. split; [|split; [exact A|exact B]].
  simpl. rewrite Nat.eqb_refl. f_equal.
  rewrite B, length_app, length_rev.
  replace (length w + length (before st) - length (before st)) with (length w)
    by lia.
  rewrite <- (length_rev w), firstn_app, Nat.sub_diag, firstn_all.
  simpl. rewrite app_nil_r. apply rev_involutive.
Qed.

Lemma importRegex_match st st' :
  Matches importRegex st st' ->
  exists s1 s2 nm s3,
    forallb is_space s1 = true /\ forallb is_space s2 = true /\ s2 <> [] /\
    directiveShape nm /\ forallb is_space s3 = true /\
    after st = s1 ++ importWord ++ s2 ++ nm ++ s3 ++ [59%N] ++ after st' /\
    length (before st')
    = length (before st)
      + length (s1 ++ importWord ++ s2 ++ nm ++ s3 ++ [59%N]) /\
    getCap 1 (caps st') = Some nm.
Proof.
  intros M.
  change importRegex
    with (seqs ([Bol true; Star ws; str "import"; Plus ws]
                  ++ Group 1 importName :: [Star ws; chr ";"])) in M.
  apply Matches_seqs_split in M. destruct M as (m1 & m2 & Mpre & Mg & Mpost).
  change (seqs [Bol true; Star ws; str "import"; Plus ws])
    with (Seq (Bol true) (seqs [Star ws; str "import"; Plus ws])) in Mpre.
  apply Matches_seq_inv in Mpre. destruct Mpre as (mid & Mb & Mr).
  apply Matches_bol_inv in Mb. destruct Mb as [-> _].
  destruct (Matches_Lang Mr eq_refl) as (w1 & L1 & A1 & B1).
  change (seqs [Star ws; str "import"; Plus ws])
    with (Seq (Star ws) (Seq (str "import") (Seq (Plus ws) Eps))) in L1.
  apply Lang_seq_inv in L1. destruct L1 as (s1 & v1 & -> & Ls1 & L1).
  apply Lang_seq_inv in L1. destruct L1 as (wi & v2 & -> & Li & L1).
  apply Lang_seq_inv in L1. destruct L1 as (s2 & v3 & -> & Ls2 & L1).
  apply Lang_eps_inv in L1. subst v3.
  apply (proj1 (Lang_star_chr is_space s1)) in Ls1.
  apply Lang_str in Li. subst wi.
  apply (@Lang_plus_chr is_space s2) in Ls2. destruct Ls2 as [N2 F2].
  destruct (@Matches_group_span 1 importName m1 m2 Mg eq_refl)
    as (nm & Ln & Cn & An & Bn).
  apply Lang_importName in Ln.
  assert (Hn : ~ In 1 (groups (seqs [Star ws; chr ";"]))) by (simpl; intros []).
  pose proof (Matches_getCap_other 1 Mpost Hn) as Cp.
  destruct (Matches_Lang Mpost eq_refl) as (w3 & L3 & A3 & B3).
  change (seqs [Star ws; chr ";"])
    with (Seq (Star ws) (Seq (Chr (N.eqb 59%N)) Eps)) in L3.
  apply Lang_seq_inv in L3. destruct L3 as (s3 & v4 & -> & Ls3 & L3).
  apply Lang_seq_inv in L3. destruct L3 as (wc & v5 & -> & Lc & L3).
  apply Lang_eps_inv in L3. subst v5.
  apply (proj1 (Lang_star_chr is_space s3)) in Ls3.
  apply Lang_chr_inv in Lc. destruct Lc as (c & -> & Hc).
  apply N.eqb_eq in Hc. subst c.
  exists s1, s2, nm, s3.
  split; [exact Ls1|]. split; [exact F2|]. split; [exact N2|].
  split; [exact Ln|]. split; [exact Ls3|].
  split; [|split].
  - rewrite A1, An, A3. unfold importWord. now rewrite <- !app_assoc.
  - rewrite B3, Bn, B1. unfold importWord.
    rewrite !length_app, !length_rev, !length_app. simpl. lia.
  - now rewrite Cp.
Qed.

(** *** A match at the inserted line *)

Lemma Lang_chars_intro l : Lang (seqs (map (fun c => Chr (N.eqb c)) l)) l.
Proof.
  induction l as [|c l IH]; simpl; [constructor|].
  apply (@LSeq _ _ [c] l); [|exact IH].
  constructor. apply N.eqb_refl.
Qed.

Lemma Lang_importName_intro x : directiveShape x -> Lang importName x.
Proof.
  intros (c & r & star & -> & Hc & Hr). unfold importName.
  change (c :: r ++ (if star then [46%N; 42%N] else []))
    with ((c :: r) ++ (if star then [46%N; 42%N] else [])).
  apply LSeq.
  - apply (@LSeq _ _ [c] r); [now constructor|].
    now apply Lang_star_chr.
  - destruct star.
    + apply LAltL. apply (Lang_chars_intro [46%N; 42%N]).
    + apply LAltR. constructor.
Qed.

Lemma importLine_app x B :
  importLine x ++ B = importWord ++ [32%N] ++ x ++ [59%N] ++ B.
Proof.
  unfold importLine.
  change (lit "import ") with (importWord ++ [32%N]).
  change (lit ";") with [59%N].
  now rewrite <- !app_assoc.
Qed.

Lemma importRegex_at_line A x B :
  (A = [] \/ exists A0, A = A0 ++ [NL]) -> directiveShape x ->
  exists st', Matches importRegex (MState (rev A ++ []) (importLine x ++ B) []) st'.
Proof.
  intros HA Hx.
  assert (Hb : atBol true (MState (rev A ++ []) (importLine x ++ B) []) = true).
  { destruct HA as [->|(A0 & ->)]; [reflexivity|].
    rewrite rev_app_distr. reflexivity. }
  assert (L : Lang (seqs [ Star ws; str "import"; Plus ws;
                           Group 1 importName; Star ws; chr ";" ])
                   (importWord ++ [32%N] ++ x ++ [59%N])).
  { change (seqs [ Star ws; str "import"; Plus ws;
                   Group 1 importName; Star ws; chr ";" ])
      with (Seq (Star ws) (Seq (str "import") (Seq (Plus ws)
             (Seq (Group 1 importName) (Seq (Star ws)
               (Seq (Chr (N.eqb 59%N)) Eps)))))).
    apply (@LSeq _ _ [] (importWord ++ [32%N] ++ x ++ [59%N]));
      [constructor|].
    apply LSeq; [apply Lang_chars_intro|].
    apply LSeq.
    { apply (@LSeq _ _ [32%N] []); [now constructor|constructor]. }
    apply LSeq; [constructor; now apply Lang_importName_intro|].
    apply (@LSeq _ _ [] [59%N]); [constructor|].
    apply (@LSeq _ _ [59%N] []); [now constructor|constructor]. }
  destruct (Lang_Matches L (rev A ++ []) B []) as (cs' & M).
  rewrite importLine_app.
  replace (importWord ++ [32%N] ++ x ++ [59%N] ++ B)
    with ((importWord ++ [32%N] ++ x ++ [59%N]) ++ B)
    by now rewrite <- !app_assoc.
  eexists.
  change importRegex
    with (Seq (Bol true)
              (seqs [ Star ws; str "import"; Plus ws;
                      Group 1 importName; Star ws; chr ";" ])).
  eapply MSeq; [|exact M].
  constructor. exact Hb.
Qed.

(** *** Where a line sits in the joined text *)

Lemma join_around (P : list jsstring) (y : jsstring) (S : list jsstring) :
  exists A B, join [NL] (P ++ y :: S) = A ++ y ++ B /\
              (A = [] \/ exists A0, A = A0 ++ [NL]).
Proof.
  induction P as [|p P (A & B & E & HA)].
  - exists [], (match S with [] => [] | _ => [NL] ++ join [NL] S end).
    split; [|now left]. destruct S; simpl; [now rewrite app_nil_r|reflexivity].
  - exists (p ++ [NL] ++ A), B. split.
    + assert (J : join [NL] ((p :: P) ++ y :: S)
                  = p ++ [NL] ++ join [NL] (P ++ y :: S)).
      { simpl. destruct (P ++ y :: S) eqn:D; [|reflexivity].
        destruct P; discriminate D. }
      rewrite J, E. now rewrite <- !app_assoc.
    + right. destruct HA as [->|(A0 & ->)].
      * exists p. now rewrite app_nil_r.
      * exists (p ++ [NL] ++ A0). now rewrite <- !app_assoc.
Qed.

(** X16: every directive that [mergeImports] inserts is found again when the
    merged text is scanned by [extractImports]. *)
Theorem mergeImports_inserted_found (existingCode newCode x : jsstring) :
  In x (importsToAdd existingCode newCode) ->
  In x (extractImports (mergeImports existingCode newCode)).
Proof.
  intros Hin.
  assert (Hx : directiveShape x).
  { apply (extractImports_directiveShape newCode).
    now apply (@importsToAdd_In existingCode newCode). }
  unfold mergeImports.
  destruct (importsToAdd existingCode newCode) as [|t ts] eqn:E;
    [destruct Hin|].
  rewrite <- E in Hin |- *. clear E t ts.
  set (lines := split NL existingCode).
  set (k := findInsertIndex 0 lines 0).
  destruct (in_split _ _ Hin) as (t1 & t2 & ->).
  rewrite map_app. cbn [map].
  rewrite <- app_assoc, app_assoc. cbn [app].
  destruct (join_around (firstn k lines ++ map importLine t1) (importLine x)
              (map importLine t2 ++ skipn k lines)) as (A & B & -> & HA).
  unfold extractImports.
  apply (@execAll_finds importRegex 1 x importRegex_progress
           (S (length (A ++ importLine x ++ B))) A [] (importLine x ++ B)).
  - lia.
  - now apply importRegex_at_line.
  - intros Q G st' EA M.
    apply importRegex_match in M.
    destruct M as (s1 & s2 & nm & s3 & F1 & F2 & N2 & Hnm & F3 & Ea & Eb & Cn).
    cbn [after before] in Ea, Eb. rewrite app_nil_r, length_rev in Eb.
    destruct (le_lt_dec (length (before st')) (0 + length A)) as [Le|Gt];
      [now left|right].
    rewrite Cn. f_equal.
    rewrite importLine_app in Ea.
    apply (@covering_match x nm s1 s2 s3 G B (after st') Hx Hnm F1 F2 N2 F3).
    + destruct G as [|g G']; [now left|right].
      destruct HA as [->|(A0 & ->)].
      * destruct Q; discriminate EA.
      * apply (@ends_with_NL Q (g :: G') A0); [now symmetry|discriminate].
    + exact Ea.
    + rewrite EA, length_app in Gt. lia.
Qed.

Lemma mergeImports_inserted_found_witness :
  In (lit "java.util.List")
     (importsToAdd existingOneImport fragmentOneImport) /\
  In (lit "java.util.List")
     (extractImports (mergeImports existingOneImport fragmentOneImport)).
Proof.
  assert (H : In (lit "java.util.List")
                 (importsToAdd existingOneImport fragmentOneImport)).
  { assert (E : importsToAdd existingOneImport fragmentOneImport
                = [lit "java.util.List"]) by (vm_compute; reflexivity).
    rewrite E. now left. }
  split; [exact H|].
  exact (mergeImports_inserted_found existingOneImport fragmentOneImport _ H).
Defined.

End Roundtrip.

(* ================================================================== *)
(** ** pathResolver.ts: sources in a standard layout *)
(* ================================================================== *)

Module Resolution.

Import SidebarProvider PathResolver ImportMerge Layouts.

(** *** Segments *)

(** A path segment that [path.normalize] keeps as it is. *)
Definition segment (s : jsstring) : Prop :=
  s <> [] /\ forallb notSlash s = true /\ s <> [dot] /\ s <> [dot; dot].

(** A package or class name: a non-empty run of word units. *)
Definition plain (s : jsstring) : Prop :=
  s <> [] /\ forallb is_word s = true.

Lemma word_units c :
  is_word c = true ->
  notSlash c = true /\ notDot c = true /\ (c =? backslash)%N = false.
Proof.
  unfold is_word, is_lower, is_upper, is_digit, notSlash, notDot,
    slash, dot, backslash.
  intros H.
  repeat (apply orb_true_iff in H; destruct H as [H|H]);
    rewrite ?andb_true_iff, ?N.leb_le, ?N.eqb_eq in H;
    rewrite !negb_true_iff, !N.eqb_neq; lia.
Qed.

Lemma plain_segment s : plain s -> segment s.
Proof.
  intros [Hne Hw]. destruct s as [|c s]; [congruence|].
  simpl in Hw. apply andb_true_iff in Hw. destruct Hw as [Hc Hw].
  destruct (word_units c Hc) as (S & D & _).
  split; [discriminate|]. split.
  - simpl. rewrite S. simpl. apply forallb_forall. intros d Hd.
    rewrite forallb_forall in Hw. now destruct (word_units d (Hw d Hd)).
  - split; intros E; injection E as -> _; vm_compute in D; discriminate D.
Qed.

(** A file name: a plain name, possibly a suffix, and an extension. *)
Lemma file_segment n suffix e :
  plain n -> forallb is_word suffix = true -> forallb is_word e = true ->
  segment (n ++ suffix ++ dot :: e).
Proof.
  intros [Hne Hw] Hs He. destruct n as [|c n]; [congruence|].
  simpl in Hw. apply andb_true_iff in Hw. destruct Hw as [Hc Hw].
  destruct (word_units c Hc) as (S & D & _).
  split; [discriminate|]. split.
  - simpl. rewrite S. simpl. rewrite !forallb_app. simpl.
    assert (W : forall l, forallb is_word l = true -> forallb notSlash l = true).
    { intros l Hl. apply forallb_forall. intros d Hd.
      rewrite forallb_forall in Hl. now destruct (word_units d (Hl d Hd)). }
    now rewrite (W n Hw), (W suffix Hs), (W e He).
  - split; intros E; injection E as -> _; vm_compute in D; discriminate D.
Qed.

(** *** Splitting and joining at slashes *)

Lemma split_segment s : forallb notSlash s = true -> split slash s = [s].
Proof.
  induction s as [|c r IH]; intros H; [reflexivity|].
  simpl in H. apply andb_true_iff in H. destruct H as [Hc Hr].
  cbn [split]. unfold notSlash in Hc. apply negb_true_iff in Hc.
  rewrite Hc. now rewrite IH.
Qed.

Lemma split_app_slash a : forall b,
  split slash (a ++ slash :: b) = split slash a ++ split slash b.
Proof.
  induction a as [|c a IH]; intros b.
  - reflexivity.
  - cbn [app split]. rewrite IH.
    destruct (c =? slash)%N; [reflexivity|].
    destruct (split slash a) as [|h t] eqn:S; [|reflexivity].
    now destruct (split_nonempty slash a).
Qed.

Lemma join_cons (x y : jsstring) (l : list jsstring) :
  join [slash] (x :: y :: l) = x ++ slash :: join [slash] (y :: l).
Proof. reflexivity. Qed.

Lemma split_join_slash segs :
  segs <> [] -> Forall segment segs -> split slash (join [slash] segs) = segs.
Proof.
  induction segs as [|x segs IH]; intros Hne F; [congruence|].
  inversion F as [|? ? Hx Hs]; subst.
  destruct Hx as (_ & Hx & _).
  destruct segs as [|y segs].
  - now apply split_segment.
  - rewrite join_cons, split_app_slash, (split_segment _ Hx), IH;
      [reflexivity|discriminate|exact Hs].
Qed.

Lemma join_app_slash (l : list jsstring) : forall r,
  l <> [] -> r <> [] ->
  join [slash] (l ++ r) = join [slash] l ++ slash :: join [slash] r.
Proof.
  induction l as [|a l IH]; intros r Hl Hr; [congruence|].
  destruct l as [|b l].
  - destruct r as [|c r]; [congruence|]. reflexivity.
  - change ((a :: b :: l) ++ r) with (a :: b :: (l ++ r)).
    rewrite !join_cons.
    change (b :: l ++ r) with ((b :: l) ++ r).
    rewrite IH by (discriminate || exact Hr).
    now rewrite <- app_assoc.
Qed.

Lemma join_first segs :
  segs <> [] -> Forall segment segs ->
  exists c r, join [slash] segs = c :: r /\ notSlash c = true.
Proof.
  intros Hne F. destruct segs as [|x segs]; [congruence|].
  inversion F as [|? ? (Hx & Hs & _) _]; subst.
  destruct x as [|c x]; [congruence|].
  simpl in Hs. apply andb_true_iff in Hs. destruct Hs as [Hc _].
  destruct segs as [|y segs].
  - now exists c, x.
  - rewrite join_cons. now exists c, (x ++ slash :: join [slash] (y :: segs)).
Qed.

Lemma join_last segs :
  segs <> [] -> Forall segment segs ->
  exists q l, join [slash] segs = q ++ [l] /\ notSlash l = true.
Proof.
  intros Hne F. destruct (exists_last Hne) as (pre & z & ->).
  apply Forall_app in F. destruct F as [_ F].
  inversion F as [|? ? (Hz & Hs & _) _]; subst.
  destruct (exists_last Hz) as (z' & l & ->).
  rewrite forallb_app in Hs. apply andb_true_iff in Hs.
  destruct Hs as [_ Hl]. simpl in Hl. rewrite andb_true_r in Hl.
  destruct pre as [|p pre].
  - now exists z', l.
  - rewrite join_app_slash by discriminate.
    exists (join [slash] (p :: pre) ++ slash :: z'), l.
    split; [|exact Hl]. cbn [join]. now rewrite <- app_assoc.
Qed.

(** *** [path.normalize] and [path.join] on clean paths *)

Lemma jseqb_neq a b : a <> b -> jseqb a b = false.
Proof.
  intros H. destruct (jseqb a b) eqn:E; [|reflexivity].
  apply jseqb_eq in E. contradiction.
Qed.

Lemma normSegments_segments allowAboveRoot segs : forall stack,
  Forall segment segs ->
  normSegments allowAboveRoot segs stack = rev stack ++ segs.
Proof.
  induction segs as [|s segs IH]; intros stack F; simpl.
  - now rewrite app_nil_r.
  - inversion F as [|? ? (H1 & _ & H2 & H3) Hs]; subst.
    rewrite (jseqb_neq H1), (jseqb_neq H2), (jseqb_neq H3). simpl.
    rewrite IH by exact Hs. simpl. now rewrite <- app_assoc.
Qed.

Lemma normalize_segments segs :
  segs <> [] -> Forall segment segs ->
  normalize (join [slash] segs) = join [slash] segs.
Proof.
  intros Hne F.
  destruct (join_first Hne F) as (c & r & E & Hc).
  destruct (join_last Hne F) as (q & l & El & Hl).
  pose proof (split_join_slash Hne F) as Sp.
  unfold notSlash in Hc, Hl. apply negb_true_iff in Hc, Hl.
  assert (Rv : rev (c :: r) = l :: rev q).
  { rewrite <- E, El, rev_app_distr. reflexivity. }
  rewrite E in Sp. rewrite E at 1.
  unfold normalize. cbv beta iota zeta.
  rewrite Sp, Rv, Hc, Hl, (normSegments_segments _ [] F).
  cbn [rev app negb]. rewrite E. cbn [app]. now rewrite app_nil_r.
Qed.

Lemma filter_nonempty (l : list jsstring) :
  Forall (fun a => a <> []) l ->
  filter (fun a => negb (jseqb a [])) l = l.
Proof.
  induction 1 as [|a l Ha _ IH]; [reflexivity|].
  simpl. rewrite (jseqb_neq Ha). simpl. now rewrite IH.
Qed.

(** [path.join(dir, file)] of a clean directory and a file name. *)
Lemma pjoin_dir_file segs file :
  segs <> [] -> Forall segment segs -> segment file ->
  pjoin [join [slash] segs; file] = join [slash] (segs ++ [file]).
Proof.
  intros Hne F Hf.
  destruct (join_first Hne F) as (c & r & E & _).
  unfold pjoin. rewrite filter_nonempty.
  - change (join [slash] [join [slash] segs; file])
      with (join [slash] segs ++ slash :: join [slash] [file]).
    rewrite <- join_app_slash by (exact Hne || discriminate).
    apply normalize_segments.
    + intros C. apply app_eq_nil in C. destruct C as [_ C]. discriminate C.
    + apply Forall_app. split; [exact F|]. now constructor.
  - constructor; [rewrite E; discriminate|].
    constructor; [now destruct Hf|constructor].
Qed.

(** *** [path.parse] of a directory and a file name *)

Lemma takeWhile_stop p (a : jsstring) c x :
  forallb p a = true -> p c = false -> takeWhile p (a ++ c :: x) = a.
Proof.
  intros Ha Hc. induction a as [|d a IH]; simpl in *; [now rewrite Hc|].
  apply andb_true_iff in Ha. destruct Ha as [Hd Ha].
  rewrite Hd. now rewrite IH.
Qed.

Lemma dropWhile_stop p (a : jsstring) c x :
  forallb p a = true -> p c = false -> dropWhile p (a ++ c :: x) = c :: x.
Proof.
  intros Ha Hc. induction a as [|d a IH]; simpl in *; [now rewrite Hc|].
  apply andb_true_iff in Ha. destruct Ha as [Hd Ha].
  rewrite Hd. now apply IH.
Qed.

Lemma forallb_rev_units p (l : jsstring) :
  forallb p (rev l) = forallb p l.
Proof.
  induction l as [|c l IH]; [reflexivity|].
  simpl. rewrite forallb_app, IH. simpl. rewrite andb_true_r.
  apply andb_comm.
Qed.

Lemma splitExt_name_ext n e :
  n <> [] -> n <> [dot] -> forallb notDot e = true ->
  splitExt (n ++ dot :: e) = (n, dot :: e).
Proof.
  intros Hn Hd He. unfold splitExt.
  assert (R : rev (n ++ dot :: e) = rev e ++ dot :: rev n).
  { rewrite rev_app_distr. simpl. now rewrite <- app_assoc. }
  assert (Fe : forallb notDot (rev e) = true) by now rewrite forallb_rev_units.
  assert (Dd : notDot dot = false) by reflexivity.
  rewrite R, (@takeWhile_stop notDot _ _ (rev n) Fe Dd),
    (@dropWhile_stop notDot _ _ (rev n) Fe Dd).
  assert (N1 : rev n <> []).
  { intros C. apply (f_equal (@rev N)) in C. rewrite rev_involutive in C.
    now apply Hn. }
  assert (N2 : n ++ dot :: e <> [dot; dot]).
  { intros C. destruct n as [|a [|b n]]; [congruence| |].
    - injection C as -> _. now apply Hd.
    - destruct n; discriminate C. }
  rewrite (jseqb_neq N1), (jseqb_neq N2). simpl.
  now rewrite !rev_involutive.
Qed.

Lemma parse_dir_file d b :
  (exists c r, d = c :: r /\ notSlash c = true) ->
  b <> [] -> forallb notSlash b = true ->
  parse (d ++ slash :: b)
  = mkParsed [] d b (snd (splitExt b)) (fst (splitExt b)).
Proof.
  intros (c & r & -> & Hc) Hb Fb. unfold parse. cbn [app].
  unfold notSlash in Hc. apply negb_true_iff in Hc. rewrite Hc.
  change (c :: r ++ slash :: b) with ((c :: r) ++ slash :: b).
  assert (R : rev ((c :: r) ++ slash :: b) = rev b ++ slash :: rev (c :: r)).
  { rewrite rev_app_distr. cbn [rev]. now rewrite <- !app_assoc. }
  rewrite R.
  assert (Fr : forallb notSlash (rev b) = true) by now rewrite forallb_rev_units.
  assert (D0 : dropWhile (N.eqb slash) (rev b ++ slash :: rev (c :: r))
               = rev b ++ slash :: rev (c :: r)).
  { destruct (rev b) as [|x xs] eqn:Eb.
    - apply (f_equal (@rev N)) in Eb. rewrite rev_involutive in Eb.
      now destruct Hb.
    - simpl in Fr. apply andb_true_iff in Fr. destruct Fr as [Fx _].
      unfold notSlash in Fx. apply negb_true_iff in Fx.
      cbn [app dropWhile]. rewrite N.eqb_sym, Fx. reflexivity. }
  rewrite D0.
  assert (Ds : notSlash slash = false) by reflexivity.
  rewrite (@takeWhile_stop notSlash _ _ (rev (c :: r)) Fr Ds),
    (@dropWhile_stop notSlash _ _ (rev (c :: r)) Fr Ds).
  rewrite !rev_involutive. cbn [app].
  now destruct (splitExt b).
Qed.

Lemma takeWhile_all p (a : jsstring) :
  forallb p a = true -> takeWhile p a = a /\ dropWhile p a = [].
Proof.
  induction a as [|d a IH]; simpl; intros H; [now split|].
  apply andb_true_iff in H. destruct H as [Hd Ha]. rewrite Hd.
  destruct (IH Ha) as [-> ->]. now split.
Qed.

Lemma parse_file b :
  b <> [] -> forallb notSlash b = true ->
  parse b = mkParsed [] [] b (snd (splitExt b)) (fst (splitExt b)).
Proof.
  intros Hb Fb. unfold parse. destruct b as [|c r] eqn:Eb; [congruence|].
  rewrite <- Eb in *.
  assert (Hc : (c =? slash)%N = false).
  { rewrite Eb in Fb. simpl in Fb. apply andb_true_iff in Fb.
    destruct Fb as [Fc _]. unfold notSlash in Fc. now apply negb_true_iff in Fc. }
  rewrite Hc.
  assert (Fr : forallb notSlash (rev b) = true) by now rewrite forallb_rev_units.
  assert (D0 : dropWhile (N.eqb slash) (rev b) = rev b).
  { destruct (rev b) as [|x xs] eqn:Er; [reflexivity|].
    simpl in Fr. apply andb_true_iff in Fr. destruct Fr as [Fx _].
    unfold notSlash in Fx. apply negb_true_iff in Fx.
    cbn [dropWhile]. now rewrite N.eqb_sym, Fx. }
  rewrite D0. destruct (takeWhile_all notSlash (rev b) Fr) as [-> ->].
  rewrite rev_involutive. now destruct (splitExt b).
Qed.

(** *** The resolver on clean paths *)

Lemma normalizeSeparators_id s :
  forallb (fun c => negb (c =? backslash)%N) s = true ->
  normalizeSeparators s = s.
Proof.
  unfold normalizeSeparators. induction s as [|c s IH]; simpl; intros H;
    [reflexivity|].
  apply andb_true_iff in H. destruct H as [Hc Hs].
  apply negb_true_iff in Hc. rewrite Hc. now rewrite IH.
Qed.

Lemma forallb_join p (segs : list jsstring) :
  p slash = true -> Forall (fun s => forallb p s = true) segs ->
  forallb p (join [slash] segs) = true.
Proof.
  intros Hp. induction 1 as [|x l Hx Hl IH]; [reflexivity|].
  destruct l as [|y l]; [exact Hx|].
  rewrite join_cons, forallb_app. cbn [forallb]. rewrite Hx, Hp. exact IH.
Qed.

Lemma replaceFirst_prefix p q r : replaceFirst (p ++ r) p q = q ++ r.
Proof.
  assert (U : forall s, replaceFirst s p q
                        = if startsWith s p then q ++ skipn (length p) s
                          else match s with
                               | [] => []
                               | c :: t => c :: replaceFirst t p q
                               end)
    by (intros [|c t]; reflexivity).
  rewrite U.
  assert (S : startsWith (p ++ r) p = true)
    by (apply startsWith_prefix; now exists r).
  rewrite S. now rewrite skipn_app, skipn_all, Nat.sub_diag.
Qed.

Definition javaExt : jsstring := lit ".java".

(** The suffix that [resolveTestPath] adds to a class name. *)
Definition testSuffix (n : jsstring) : jsstring :=
  if endsWith n (lit "Test") then [] else lit "Test".

Lemma plain_units s :
  plain s ->
  forallb (fun c => negb (c =? backslash)%N) s = true /\
  forallb notDot s = true.
Proof.
  intros [_ Hw]. rewrite forallb_forall in Hw.
  split; apply forallb_forall; intros c Hc;
    destruct (word_units c (Hw c Hc)) as (_ & D & B); [now rewrite B|exact D].
Qed.

Lemma path_units pkg n :
  Forall plain pkg -> plain n ->
  forallb (fun c => negb (c =? backslash)%N)
          (join [slash] (pkg ++ [n ++ javaExt])) = true.
Proof.
  intros Hp Hn. apply forallb_join; [reflexivity|].
  apply Forall_app. split.
  - apply Forall_forall. intros s Hs. rewrite Forall_forall in Hp.
    now destruct (plain_units (Hp s Hs)).
  - constructor; [|constructor]. rewrite forallb_app.
    destruct (plain_units Hn) as [-> _]. reflexivity.
Qed.

(** From the converted path to the resolved one. *)
Lemma resolve_converted folder relativePath dsegs n :
  dsegs <> [] -> Forall segment dsegs -> plain n ->
  convertToTestPath relativePath = join [slash] (dsegs ++ [n ++ javaExt]) ->
  resolveTestPath (Some folder) relativePath None
  = inr (JoinPath folder
           (join [slash] (dsegs ++ [n ++ testSuffix n ++ javaExt]))).
Proof.
  intros Hne F Hn E.
  destruct (join_first Hne F) as (c & r & Ed & Hc).
  assert (Sf : segment (n ++ javaExt)).
  { apply (@file_segment n [] (lit "java")); auto. }
  assert (P : parse (join [slash] (dsegs ++ [n ++ javaExt]))
              = mkParsed [] (join [slash] dsegs) (n ++ javaExt) javaExt n).
  { rewrite join_app_slash by (exact Hne || discriminate).
    cbn [join]. rewrite parse_dir_file.
    - change javaExt with (dot :: lit "java").
      rewrite splitExt_name_ext; [reflexivity|now destruct Hn| |reflexivity].
      destruct (plain_units Hn) as [_ D]. intros ->. vm_compute in D.
      discriminate D.
    - now exists c, r.
    - now destruct Sf.
    - now destruct Sf as (_ & S & _). }
  unfold resolveTestPath. rewrite E, P. cbn [pname dir ext].
  unfold testSuffix. destruct (endsWith n (lit "Test")).
  - reflexivity.
  - rewrite pjoin_dir_file; [reflexivity|exact Hne|exact F|].
    apply (@file_segment n (lit "Test") (lit "java")); auto.
Qed.

Definition mainLayout : list jsstring := [lit "src"; lit "main"; lit "java"].
Definition testLayout : list jsstring := [lit "src"; lit "test"; lit "java"].

Lemma testLayout_segments pkg :
  Forall plain pkg -> Forall segment (testLayout ++ pkg).
Proof.
  intros Hp. apply Forall_app. split.
  - repeat constructor; try discriminate.
  - apply Forall_forall. intros s Hs. rewrite Forall_forall in Hp.
    now apply plain_segment, Hp.
Qed.

(** X17: in the standard layout the resolver changes the [main] directory
    into [test] and puts [Test] before the extension, unless the class name
    already ends with it; package directories and class name are kept. *)
Theorem resolveTestPath_standard_layout
  (folder : jsstring) (pkg : list jsstring) (n : jsstring) :
  Forall plain pkg -> plain n ->
  resolveTestPath (Some folder)
    (join [slash] (mainLayout ++ pkg ++ [n ++ javaExt])) None
  = inr (JoinPath folder
           (join [slash] (testLayout ++ pkg ++ [n ++ testSuffix n ++ javaExt]))).
Proof.
  intros Hp Hn.
  assert (T : pkg ++ [n ++ javaExt] <> []).
  { intros C. apply app_eq_nil in C. destruct C as [_ C]. discriminate C. }
  rewrite (app_assoc testLayout).
  apply resolve_converted;
    [discriminate|now apply testLayout_segments|exact Hn|].
  rewrite <- app_assoc.
  rewrite (@join_app_slash mainLayout (pkg ++ [n ++ javaExt]))
    by (discriminate || exact T).
  rewrite (@join_app_slash testLayout (pkg ++ [n ++ javaExt]))
    by (discriminate || exact T).
  change (join [slash] mainLayout) with (lit "src/main/java").
  change (join [slash] testLayout) with (lit "src/test/java").
  unfold convertToTestPath.
  rewrite normalizeSeparators_id.
  - assert (I : includes (lit "src/main/java"
                            ++ slash :: join [slash] (pkg ++ [n ++ javaExt]))
                         (lit "src/main/java") = true).
    { apply includes_infix.
      now exists [], (slash :: join [slash] (pkg ++ [n ++ javaExt])). }
    rewrite I. apply replaceFirst_prefix.
  - rewrite forallb_app. cbn [forallb].
    rewrite (path_units Hp Hn). reflexivity.
Qed.

Lemma resolveTestPath_standard_layout_witness :
  Forall plain [lit "com"; lit "example"] /\ plain (lit "OrderTest") /\
  resolveTestPath (Some (lit "/work"))
    (lit "src/main/java/com/example/OrderTest.java") None
  = inr (JoinPath (lit "/work")
           (lit "src/test/java/com/example/OrderTest.java")).
Proof.
  assert (Hp : Forall plain [lit "com"; lit "example"])
    by (repeat constructor; discriminate).
  assert (Hn : plain (lit "OrderTest")) by (split; [discriminate|reflexivity]).
  split; [exact Hp|]. split; [exact Hn|].
  exact (resolveTestPath_standard_layout (lit "/work") Hp Hn).
Defined.

(** X18: outside the three known layouts the resolver keeps the whole
    relative directory and puts it under [src/test/java]; the class name
    gets [Test] before the extension unless it already ends with it. *)
Theorem resolveTestPath_other_layout
  (folder : jsstring) (pkg : list jsstring) (n : jsstring) :
  Forall plain pkg -> plain n ->
  layoutRule (join [slash] (pkg ++ [n ++ javaExt])) = None ->
  resolveTestPath (Some folder) (join [slash] (pkg ++ [n ++ javaExt])) None
  = inr (JoinPath folder
           (join [slash] (testLayout ++ pkg ++ [n ++ testSuffix n ++ javaExt]))).
Proof.
  intros Hp Hn L.
  rewrite (app_assoc testLayout).
  apply resolve_converted;
    [discriminate|now apply testLayout_segments|exact Hn|].
  assert (Sf : segment (n ++ javaExt))
    by (apply (@file_segment n [] (lit "java")); auto).
  assert (Fp : Forall segment pkg).
  { apply Forall_forall. intros s Hs. rewrite Forall_forall in Hp.
    now apply plain_segment, Hp. }
  unfold convertToTestPath.
  rewrite (normalizeSeparators_id _ (path_units Hp Hn)).
  unfold layoutRule in L.
  destruct (includes _ (lit "src/main/java")); [discriminate L|].
  destruct (includes _ (lit "main/java")); [discriminate L|].
  destruct (includes _ (lit "src/main/kotlin")); [discriminate L|].
  destruct pkg as [|p pkg].
  - cbn [app join]. rewrite (parse_file (proj1 Sf) (proj1 (proj2 Sf))).
    cbn [dir base]. unfold pjoin.
    assert (J : forall s : jsstring, s <> [] -> negb (jseqb s []) = true)
      by (intros s Hs; now rewrite (jseqb_neq Hs)).
    assert (J0 : negb (jseqb (@nil N) []) = false)
      by (apply negb_false_iff, jseqb_eq; reflexivity).
    match goal with
    | |- context [filter ?f ?l] =>
        assert (E : filter f l = testLayout ++ [n ++ javaExt])
    end.
    { cbn [filter]. rewrite !J by discriminate.
      rewrite J0, (J _ (proj1 Sf)). reflexivity. }
    rewrite E.
    change (match testLayout ++ [n ++ javaExt] with
            | [] => [dot]
            | _ => normalize (join [slash] (testLayout ++ [n ++ javaExt]))
            end)
      with (normalize (join [slash] (testLayout ++ [n ++ javaExt]))).
    rewrite app_nil_r. apply normalize_segments; [discriminate|].
    apply Forall_app. split; [apply (testLayout_segments (pkg := [])); constructor|].
    now constructor.
  - assert (Hne : p :: pkg <> []) by discriminate.
    destruct (join_first Hne Fp) as (c & r & Ed & Hc).
    rewrite join_app_slash by (exact Hne || discriminate).
    change (join [slash] [n ++ javaExt]) with (n ++ javaExt).
    rewrite parse_dir_file;
      [|now exists c, r|exact (proj1 Sf)|exact (proj1 (proj2 Sf))].
    cbn [dir base]. unfold pjoin.
    rewrite filter_nonempty.
    + change (join [slash] [lit "src"; lit "test"; lit "java";
                            join [slash] (p :: pkg); n ++ javaExt])
        with (join [slash] testLayout
                ++ slash :: (join [slash] (p :: pkg)
                               ++ slash :: join [slash] [n ++ javaExt])).
      rewrite <- !join_app_slash by (discriminate || exact Hne).
      rewrite <- app_assoc.
      apply normalize_segments; [discriminate|].
      rewrite app_assoc. apply Forall_app. split.
      * now apply testLayout_segments.
      * now constructor.
    + repeat (constructor; [discriminate|]).
      constructor; [rewrite Ed; discriminate|].
      constructor; [exact (proj1 Sf)|constructor].
Qed.

Lemma resolveTestPath_other_layout_witness :
  Forall plain [lit "lib"] /\ plain (lit "Order") /\
  layoutRule (join [slash] ([lit "lib"] ++ [lit "Order" ++ javaExt])) = None /\
  resolveTestPath (Some (lit "/work")) (lit "lib/Order.java") None
  = inr (JoinPath (lit "/work") (lit "src/test/java/lib/OrderTest.java")).
Proof.
  assert (Hp : Forall plain [lit "lib"]) by (repeat constructor; discriminate).
  assert (Hn : plain (lit "Order")) by (split; [discriminate|reflexivity]).
  assert (L : layoutRule (join [slash] ([lit "lib"] ++ [lit "Order" ++ javaExt]))
              = None) by (vm_compute; reflexivity).
  split; [exact Hp|]. split; [exact Hn|]. split; [exact L|].
  exact (resolveTestPath_other_layout (lit "/work") Hp Hn L).
Defined.

End Resolution.
